(** * jp-vocab-app: daily word selection and study sessions

    A shallow embedding of the quiz logic of the vocabulary flash-card
    application: [js/storage.js] (the persisted collections), [js/data.js]
    (words, categories, counters and the study log), [js/quiz.js] (daily
    selection, shuffle and the session controller) and the line format of
    [csv.js].

    Conventions of the embedding.
    - JavaScript integers are [Z]; array indices and lengths are [nat].
    - An array is a [list]; [arr\[i\]] is [arr !! i], [arr\[i\] = x] is
      [<\[i:=x\]> arr] (the source only writes at indices it has just read).
    - The study log, a plain object keyed by the day, is a [gmap string _];
      the [Set] of selected ids is a [gset string].
    - [null]/[undefined] results are [None].
    - [localStorage] is taken to be reliable: what [set*] writes is what the
      next [get*] reads.
    - The host supplies what the source does not define: the collation
      [String.prototype.localeCompare], [String.prototype.trim], the clock
      ([today ()], [new Date ()]), [Math.random], the ids of [generateId]
      and the rounding of a floating-point percentage.  They are arguments
      of the operations that use them. *)

From Stdlib Require Import ZArith String Ascii Sorted.
From stdpp Require Import gmap strings list fin_maps sorting pretty.

Local Open Scope string_scope.
Local Open Scope list_scope.
Local Open Scope Z_scope.

(** ** Array primitives of the host language *)

Section Arrays.
Context {A : Type}.

(** [Array.prototype.slice]: a negative bound counts from the end of the
    array, every bound is clamped to [0 .. length]. *)
Definition relativeIndex (len : nat) (k : Z) : nat :=
  if decide (k < 0) then Z.to_nat (Z.max (Z.of_nat len + k) 0)
  else Z.to_nat (Z.min k (Z.of_nat len)).

Definition slice (first last : Z) (arr : list A) : list A :=
  let k := relativeIndex (length arr) first in
  let final := relativeIndex (length arr) last in
  take (final - k)%nat (drop k arr).

(** [Array.prototype.sort] with a comparator.  The sort of the language is
    stable; a comparator result [<= 0] keeps [x] in front of [y].  A
    stable insertion sort computes the same array for every consistent
    comparator. *)
Fixpoint insertSorted (cmp : A → A → Z) (x : A) (arr : list A) : list A :=
  match arr with
  | [] => [x]
  | y :: rest =>
      if decide (cmp x y ≤ 0) then x :: y :: rest
      else y :: insertSorted cmp x rest
  end.

Definition sort (cmp : A → A → Z) (arr : list A) : list A :=
  foldr (insertSorted cmp) [] arr.

(** The order a comparator stands for. *)
Definition inOrder (cmp : A → A → Z) (a b : A) : Prop := cmp a b ≤ 0.

(** [[a\[i\], a\[j\]] = [a\[j\], a\[i\]]] *)
Definition swap (i j : nat) (arr : list A) : list A :=
  match arr !! i, arr !! j with
  | Some x, Some y => <[j:=x]> (<[i:=y]> arr)
  | _, _ => arr
  end.
End Arrays.

(** ** storage.js *)

Module Word.
Record t : Type := mk {
  id            : string;
  japanese      : string;
  furigana      : string;
  korean        : string;
  categoryId    : string;
  wrongCount    : Z;
  correctStreak : Z;
  createdAt     : string;
}.

Definition set_wrongCount (n : Z) (w : t) : t :=
  mk (id w) (japanese w) (furigana w) (korean w) (categoryId w)
     n (correctStreak w) (createdAt w).

Definition set_correctStreak (n : Z) (w : t) : t :=
  mk (id w) (japanese w) (furigana w) (korean w) (categoryId w)
     (wrongCount w) n (createdAt w).

#[global] Instance eq_dec : EqDecision t.
Proof. solve_decision. Defined.
End Word.

Module StudyLogEntry.
Record t : Type := mk {
  count      : Z;
  categoryId : string;
}.
End StudyLogEntry.

Module Settings.
(** The quiz reads two of the five settings; the three [grassLevel]
    thresholds belong to the calendar. *)
Record t : Type := mk {
  dailyGoal        : Z;
  graduationStreak : Z;
}.

(** What is saved under [vocab_settings]: any key may be missing. *)
Record saved : Type := mkSaved {
  savedDailyGoal        : option Z;
  savedGraduationStreak : option Z;
}.
End Settings.

Module Storage.
Record t : Type := mk {
  words    : list Word.t;
  studyLog : gmap string StudyLogEntry.t;
  settings : Settings.saved;
}.

Definition DEFAULT_SETTINGS : Settings.t := Settings.mk 10 3.

Definition getWords (st : t) : list Word.t := words st.

Definition setWords (ws : list Word.t) (st : t) : t :=
  mk ws (studyLog st) (settings st).

Definition getStudyLog (st : t) : gmap string StudyLogEntry.t := studyLog st.

Definition setStudyLog (log : gmap string StudyLogEntry.t) (st : t) : t :=
  mk (words st) log (settings st).

(** [{ ...DEFAULT_SETTINGS, ...saved }] *)
Definition getSettings (st : t) : Settings.t :=
  Settings.mk
    (default (Settings.dailyGoal DEFAULT_SETTINGS)
             (Settings.savedDailyGoal (settings st)))
    (default (Settings.graduationStreak DEFAULT_SETTINGS)
             (Settings.savedGraduationStreak (settings st))).
End Storage.

(** ** data.js *)

Module Data.
Definition getWords (st : Storage.t) : list Word.t := Storage.getWords st.

Definition getWordsByCategory (categoryId : string) (st : Storage.t)
  : list Word.t :=
  filter (λ w, Word.categoryId w = categoryId) (getWords st).

Definition getWrongWords (st : Storage.t) : list Word.t :=
  sort (λ a b, Word.wrongCount b - Word.wrongCount a)
       (filter (λ w, Word.wrongCount w >= 1) (getWords st)).

(** [words.findIndex (w => w.id === id)], returned together with
    [words\[idx\]], which the callers read next; [None] stands for [-1]. *)
Definition findIndex (id : string) (ws : list Word.t)
  : option (nat * Word.t) :=
  list_find (λ w, Word.id w = id) ws.

Definition getWordById (id : string) (st : Storage.t) : option Word.t :=
  snd <$> list_find (λ w, Word.id w = id) (getWords st).

Definition markCorrect (id : string) (st : Storage.t) : Storage.t :=
  let words := getWords st in
  match findIndex id words with
  | None => st
  | Some (idx, w0) =>
      let settings := Storage.getSettings st in
      let word := Word.set_correctStreak (Word.correctStreak w0 + 1) w0 in
      let word :=
        if decide (Word.wrongCount word > 0 ∧
                   Word.correctStreak word
                     >= Settings.graduationStreak settings)
        then Word.set_correctStreak 0 (Word.set_wrongCount 0 word)
        else word in
      Storage.setWords (<[idx:=word]> words) st
  end.

Definition markWrong (id : string) (st : Storage.t) : Storage.t :=
  let words := getWords st in
  match findIndex id words with
  | None => st
  | Some (idx, w0) =>
      let word := Word.set_wrongCount (Word.wrongCount w0 + 1) w0 in
      let word := Word.set_correctStreak 0 word in
      Storage.setWords (<[idx:=word]> words) st
  end.

Definition getStudyLog (st : Storage.t) : gmap string StudyLogEntry.t :=
  Storage.getStudyLog st.

(** [a || b] on strings: the empty string is the only falsy one. *)
Definition orElse (a b : string) : string :=
  if decide (a = "") then b else a.

(** [today] is the value of [today ()] at the call. *)
Definition recordStudy (today : string) (count : Z) (categoryId : string)
    (st : Storage.t) : Storage.t :=
  let log := getStudyLog st in
  let key := today in
  let prev := default (StudyLogEntry.mk 0 categoryId) (log !! key) in
  Storage.setStudyLog
    (<[key := StudyLogEntry.mk
                (StudyLogEntry.count prev + count)
                (orElse (StudyLogEntry.categoryId prev) categoryId)]> log)
    st.
End Data.

(** ** quiz.js *)

Module Quiz.
Record AnswerRecord : Type := mkAnswer {
  wordId  : string;
  correct : bool;
}.

Module Session.
Record t : Type := mk {
  categoryId   : string;
  words        : list Word.t;
  currentIndex : nat;
  results      : list AnswerRecord;
  isFlipped    : bool;
  startedAt    : string;
}.
End Session.

(** The state the module works on: the persisted collections and the
    module-level variable [session]. *)
Record t : Type := mk {
  storage : Storage.t;
  session : option Session.t;
}.

Inductive StartResult : Type :=
| Ok (session : Session.t)
| Error (error : string).

Record Next : Type := mkNext {
  done  : bool;
  index : nat;
  total : nat;
}.

(** Fisher-Yates.  [rnd i] is the outcome of the call of [Math.random]
    made at loop index [i]; [Math.floor (Math.random () * (i + 1))]
    ranges over [0 .. i] and is read off it as [rnd i mod (i + 1)]. *)
Fixpoint shuffleLoop {A} (rnd : nat → nat) (i : nat) (result : list A)
  : list A :=
  match i with
  | O => result
  | S i' =>
      let j := (rnd i `mod` (i + 1))%nat in
      shuffleLoop rnd i' (swap i j result)
  end.

Definition shuffle {A} (rnd : nat → nat) (arr : list A) : list A :=
  shuffleLoop rnd (length arr - 1) arr.

Section WithHost.
Variable localeCompare : string → string → Z.
Variable rnd : nat → nat.

Definition buildDailyWords (categoryId : string) (st : Storage.t)
  : list Word.t :=
  let settings := Storage.getSettings st in
  let dailyGoal := Settings.dailyGoal settings in
  let maxWrong := dailyGoal - 2 in
  if decide (categoryId = "wrong") then
    slice 0 dailyGoal (shuffle rnd (Data.getWrongWords st))
  else
    let allWords :=
      if decide (categoryId = "all") then Data.getWords st
      else Data.getWordsByCategory categoryId st in
    let wrongWords :=
      slice 0 maxWrong
        (sort (λ a b, Word.wrongCount b - Word.wrongCount a)
           (filter (λ w, Word.wrongCount w >= 1) allWords)) in
    let wrongIds : gset string :=
      list_to_set (Word.id <$> wrongWords) in
    let newWords :=
      sort (λ a b, localeCompare (Word.createdAt a) (Word.createdAt b))
        (filter (λ w, Word.wrongCount w = 0 ∧ Word.id w ∉ wrongIds)
           allWords) in
    let newCount := dailyGoal - Z.of_nat (length wrongWords) in
    let selected := wrongWords ++ slice 0 newCount newWords in
    shuffle rnd selected.

Definition emptyPoolMessage : string :=
  "학습할 단어가 없습니다. 단어를 먼저 등록해주세요.".

(** [now] is [new Date ().toISOString ()] at the call. *)
Definition startSession (now : string) (categoryId : string) (q : t)
  : StartResult * t :=
  let words := buildDailyWords categoryId (storage q) in
  if decide (length words = 0%nat) then (Error emptyPoolMessage, q)
  else
    let s := Session.mk categoryId words 0 [] false now in
    (Ok s, mk (storage q) (Some s)).
End WithHost.

Definition getSession (q : t) : option Session.t := session q.

Definition clearSession (q : t) : t := mk (storage q) None.

Definition currentWord (q : t) : option Word.t :=
  match session q with
  | None => None
  | Some s => Session.words s !! Session.currentIndex s
  end.

Definition flipCard (q : t) : option bool * t :=
  match session q with
  | None => (None, q)
  | Some s =>
      let s := Session.mk (Session.categoryId s) (Session.words s)
                 (Session.currentIndex s) (Session.results s)
                 (negb (Session.isFlipped s)) (Session.startedAt s) in
      (Some (Session.isFlipped s), mk (storage q) (Some s))
  end.

Definition _finishSession (today : string) (s : Session.t)
    (st : Storage.t) : Storage.t :=
  let count := Z.of_nat (length (Session.results s)) in
  Data.recordStudy today count (Session.categoryId s) st.

Definition _next (today : string) (s : Session.t) (st : Storage.t)
  : Next * t :=
  let s := Session.mk (Session.categoryId s) (Session.words s)
             (Session.currentIndex s + 1)%nat (Session.results s)
             false (Session.startedAt s) in
  let done :=
    bool_decide (length (Session.words s) ≤ Session.currentIndex s)%nat in
  let st := if done then _finishSession today s st else st in
  (mkNext done (Session.currentIndex s) (length (Session.words s)),
   mk st (Some s)).

(** [session.results.push (r)] *)
Definition pushResult (r : AnswerRecord) (s : Session.t) : Session.t :=
  Session.mk (Session.categoryId s) (Session.words s)
    (Session.currentIndex s) (Session.results s ++ [r])
    (Session.isFlipped s) (Session.startedAt s).

Definition answerCorrect (today : string) (q : t) : option Next * t :=
  match session q with
  | None => (None, q)
  | Some s =>
      match currentWord q with
      | None => (None, q)
      | Some word =>
          let st := Data.markCorrect (Word.id word) (storage q) in
          let s := pushResult (mkAnswer (Word.id word) true) s in
          let (r, q') := _next today s st in
          (Some r, q')
      end
  end.

Definition answerWrong (today : string) (q : t) : option Next * t :=
  match session q with
  | None => (None, q)
  | Some s =>
      match currentWord q with
      | None => (None, q)
      | Some word =>
          let st := Data.markWrong (Word.id word) (storage q) in
          let s := pushResult (mkAnswer (Word.id word) false) s in
          let (r, q') := _next today s st in
          (Some r, q')
      end
  end.
End Quiz.

(** ** Vocabulary of the statements *)

(** The wrong pool and the new words, as [buildDailyWords] tells them
    apart. *)
Definition isWrong (w : Word.t) : Prop := Word.wrongCount w >= 1.
Definition isNew (w : Word.t) : Prop := Word.wrongCount w = 0.

#[global] Instance isWrong_dec w : Decision (isWrong w).
Proof. unfold isWrong. apply _. Defined.
#[global] Instance isNew_dec w : Decision (isNew w).
Proof. unfold isNew. apply _. Defined.

(** The two comparators of [buildDailyWords]. *)
Definition byWrongCount (a b : Word.t) : Z :=
  Word.wrongCount b - Word.wrongCount a.
Definition byCreatedAt (localeCompare : string → string → Z)
    (a b : Word.t) : Z :=
  localeCompare (Word.createdAt a) (Word.createdAt b).

(** The pool of a scope other than ['wrong']. *)
Definition scopeWords (categoryId : string) (st : Storage.t) : list Word.t :=
  if decide (categoryId = "all") then Data.getWords st
  else Data.getWordsByCategory categoryId st.

Definition dailyGoalOf (st : Storage.t) : Z :=
  Settings.dailyGoal (Storage.getSettings st).

(** The intermediate arrays of [buildDailyWords], by their names in the
    source. *)
Definition wrongCandidates (pool : list Word.t) : list Word.t :=
  sort byWrongCount (filter isWrong pool).

Definition wrongWordsOf (dailyGoal : Z) (pool : list Word.t) : list Word.t :=
  slice 0 (dailyGoal - 2) (wrongCandidates pool).

Definition newWordsOf (localeCompare : string → string → Z) (dailyGoal : Z)
    (pool : list Word.t) : list Word.t :=
  let wrongIds : gset string :=
    list_to_set (Word.id <$> wrongWordsOf dailyGoal pool) in
  sort (byCreatedAt localeCompare)
    (filter (λ w, Word.wrongCount w = 0 ∧ Word.id w ∉ wrongIds) pool).

Definition selectedOf (localeCompare : string → string → Z) (dailyGoal : Z)
    (pool : list Word.t) : list Word.t :=
  let wrongWords := wrongWordsOf dailyGoal pool in
  wrongWords
  ++ slice 0 (dailyGoal - Z.of_nat (length wrongWords))
       (newWordsOf localeCompare dailyGoal pool).

(** ** Sample data *)

Definition sampleWord (id : string) (wrongCount : Z) (createdAt : string)
  : Word.t :=
  Word.mk id "食べる" "たべる" "먹다" "cat-001" wrongCount 0 createdAt.

Definition sampleStorage (dailyGoal : Z) (words : list Word.t) : Storage.t :=
  Storage.mk words ∅ (Settings.mkSaved (Some dailyGoal) None).

(** A collation for the samples: the order of the code units, which is how
    every locale orders two ISO dates. *)
Definition codeUnitCompare (a b : string) : Z :=
  match String.compare a b with
  | Lt => -1
  | Eq => 0
  | Gt => 1
  end.

(** The random source whose every draw is [0]. *)
Definition zeroDraws : nat → nat := λ _, 0%nat.

(** ** The counters after an answer *)

(** The word that [markCorrect] writes back in place of [w0]. *)
Definition afterCorrect (graduationStreak : Z) (w0 : Word.t) : Word.t :=
  let word := Word.set_correctStreak (Word.correctStreak w0 + 1) w0 in
  if decide (Word.wrongCount word > 0 ∧
             Word.correctStreak word >= graduationStreak)
  then Word.set_correctStreak 0 (Word.set_wrongCount 0 word)
  else word.

(** The word that [markWrong] writes back in place of [w0]. *)
Definition afterWrong (w0 : Word.t) : Word.t :=
  Word.set_correctStreak 0 (Word.set_wrongCount (Word.wrongCount w0 + 1) w0).

Definition graduationStreakOf (st : Storage.t) : Z :=
  Settings.graduationStreak (Storage.getSettings st).

(** Two words that differ in their counters at most. *)
Definition sameCard (a b : Word.t) : Prop :=
  Word.id a = Word.id b ∧ Word.japanese a = Word.japanese b
  ∧ Word.furigana a = Word.furigana b ∧ Word.korean a = Word.korean b
  ∧ Word.categoryId a = Word.categoryId b
  ∧ Word.createdAt a = Word.createdAt b.

(** ** Runs of a session *)

(** One answer of the learner: whether it was correct, and the day
    [today ()] gives at that moment. *)
Definition answer (a : bool * string) (q : Quiz.t) : option Quiz.Next * Quiz.t :=
  if a.1 then Quiz.answerCorrect a.2 q else Quiz.answerWrong a.2 q.

Definition answerAll (answers : list (bool * string)) (q : Quiz.t) : Quiz.t :=
  foldl (λ q a, (answer a q).2) q answers.

(** A session on the words of [s0] of which [k] cards have been answered. *)
Definition answered (s0 : Quiz.Session.t) (k : nat) (q : Quiz.t) : Prop :=
  ∃ s, Quiz.session q = Some s
       ∧ Quiz.Session.words s = Quiz.Session.words s0
       ∧ Quiz.Session.categoryId s = Quiz.Session.categoryId s0
       ∧ Quiz.Session.currentIndex s = k
       ∧ length (Quiz.Session.results s) = k.

(** ** quiz.js: the queries on the session *)

Module QuizStatus.
Module SessionResult.
Record t : Type := mk {
  total      : nat;
  correct    : nat;
  wrong      : Z;
  wrongWords : list Word.t;
  categoryId : string;
}.
End SessionResult.

Definition getSessionResult (q : Quiz.t) : option SessionResult.t :=
  match Quiz.session q with
  | None => None
  | Some s =>
      let total := length (Quiz.Session.results s) in
      let correct :=
        length (filter (λ r, Quiz.correct r = true) (Quiz.Session.results s)) in
      let wrong := Z.of_nat total - Z.of_nat correct in
      let wrongWords :=
        omap (λ r, Data.getWordById (Quiz.wordId r) (Quiz.storage q))
          (filter (λ r, Quiz.correct r = false) (Quiz.Session.results s)) in
      Some (SessionResult.mk total correct wrong wrongWords
              (Quiz.Session.categoryId s))
  end.

Module Progress.
Record t : Type := mk {
  current : nat;
  total   : nat;
  percent : Z;
}.
End Progress.

(** [roundedPercent current total] is the value of
    [Math.round ((current / total) * 100)], a floating-point computation of
    the host. *)
Definition getProgress (roundedPercent : nat → nat → Z) (q : Quiz.t)
  : Progress.t :=
  match Quiz.session q with
  | None => Progress.mk 0 0 0
  | Some s =>
      let total := length (Quiz.Session.words s) in
      let current := Quiz.Session.currentIndex s in
      Progress.mk current total
        (if decide (0 < total)%nat then roundedPercent current total else 0)
  end.

Definition isFlipped (q : Quiz.t) : bool :=
  match Quiz.session q with
  | Some s => Quiz.Session.isFlipped s
  | None => false
  end.
End QuizStatus.

(** The record [answerCorrect] and [answerWrong] push for a card. *)
Definition resultOf (w : Word.t) (a : bool * string) : Quiz.AnswerRecord :=
  Quiz.mkAnswer (Word.id w) a.1.

(** A session on the words of [s0] in which the answers [given] have been
    recorded, one for each of the first cards. *)
Definition recorded (s0 : Quiz.Session.t) (given : list (bool * string))
    (q : Quiz.t) : Prop :=
  ∃ s, Quiz.session q = Some s
       ∧ Quiz.Session.words s = Quiz.Session.words s0
       ∧ Quiz.Session.categoryId s = Quiz.Session.categoryId s0
       ∧ Quiz.Session.currentIndex s = length given
       ∧ Quiz.Session.results s
         = zip_with resultOf (Quiz.Session.words s0) given.

(** ** storage.js with the categories

    The claims above need three of the four persisted collections.  The
    rest of [data.js] needs the fourth, the categories saved under
    [vocab_categories]: a store is the three collections together with
    it. *)

Module Category.
Record t : Type := mk {
  id        : string;
  name      : string;
  isDefault : bool;
  createdAt : string;
}.

Definition set_name (n : string) (c : t) : t :=
  mk (id c) n (isDefault c) (createdAt c).
End Category.

Module Backup.
(** What [exportAll] returns. *)
Record t : Type := mk {
  words      : list Word.t;
  categories : list Category.t;
  studyLog   : gmap string StudyLogEntry.t;
  settings   : Settings.t;
  exportedAt : string;
}.

(** What [importAll] is given, when it is an object: any of the four keys
    may be missing (or falsy). *)
Record data : Type := mkData {
  dataWords      : option (list Word.t);
  dataCategories : option (list Category.t);
  dataStudyLog   : option (gmap string StudyLogEntry.t);
  dataSettings   : option Settings.saved;
}.

(** A backup read back: [JSON.parse (JSON.stringify backup)]. *)
Definition readBack (b : t) : data :=
  mkData (Some (words b)) (Some (categories b)) (Some (studyLog b))
    (Some (Settings.mkSaved (Some (Settings.dailyGoal (settings b)))
             (Some (Settings.graduationStreak (settings b))))).
End Backup.

Module Store.
Record t : Type := mk {
  storage    : Storage.t;
  categories : list Category.t;
}.

Definition getWords (s : t) : list Word.t := Storage.getWords (storage s).

Definition setWords (ws : list Word.t) (s : t) : t :=
  mk (Storage.setWords ws (storage s)) (categories s).

Definition getCategories (s : t) : list Category.t := categories s.

Definition setCategories (cs : list Category.t) (s : t) : t :=
  mk (storage s) cs.

Definition getStudyLog (s : t) : gmap string StudyLogEntry.t :=
  Storage.getStudyLog (storage s).

Definition setStudyLog (log : gmap string StudyLogEntry.t) (s : t) : t :=
  mk (Storage.setStudyLog log (storage s)) (categories s).

Definition getSettings (s : t) : Settings.t := Storage.getSettings (storage s).

Definition setSettings (settings : Settings.saved) (s : t) : t :=
  mk (Storage.mk (Storage.words (storage s)) (Storage.studyLog (storage s))
        settings)
     (categories s).

(** [clearAll] removes the four keys; a removed key reads as its fallback,
    the empty collection. *)
Definition clearAll (s : t) : t :=
  mk (Storage.mk [] ∅ (Settings.mkSaved None None)) [].

(** [now] is [new Date ().toISOString ()] at the call. *)
Definition exportAll (now : string) (s : t) : Backup.t :=
  Backup.mk (getWords s) (getCategories s) (getStudyLog s) (getSettings s) now.

(** [None] stands for a [data] that is no object: [importAll] throws,
    catches and returns [false]. *)
Definition importAll (data : option Backup.data) (s : t) : bool * t :=
  match data with
  | None => (false, s)
  | Some d =>
      let s := match Backup.dataWords d with
               | Some ws => setWords ws s
               | None => s
               end in
      let s := match Backup.dataCategories d with
               | Some cs => setCategories cs s
               | None => s
               end in
      let s := match Backup.dataStudyLog d with
               | Some log => setStudyLog log s
               | None => s
               end in
      let s := match Backup.dataSettings d with
               | Some settings => setSettings settings s
               | None => s
               end in
      (true, s)
  end.
End Store.

(** ** data.js: categories, words and statistics *)

Module Crud.
(** [{ ok: true, ... }] or [{ ok: false, error }]. *)
Inductive Outcome (A : Type) : Type :=
| Ok (value : A)
| Failed (error : string).
Arguments Ok {A} value.
Arguments Failed {A} error.

(** The argument of [addWord]; [furigana] may be left out. *)
Record NewWord : Type := mkNewWord {
  newJapanese   : string;
  newFurigana   : option string;
  newKorean     : string;
  newCategoryId : string;
}.

(** The [fields] of [updateWord]: a field left out is [undefined]. *)
Record Fields : Type := mkFields {
  fieldJapanese   : option string;
  fieldFurigana   : option string;
  fieldKorean     : option string;
  fieldCategoryId : option string;
}.

(** A row of [bulkAddWords]. *)
Record Row : Type := mkRow {
  rowJapanese     : string;
  rowFurigana     : option string;
  rowKorean       : string;
  rowCategoryName : option string;
}.

Record BulkResult : Type := mkBulk {
  added  : nat;
  errors : list string;
}.

Record Stats : Type := mkStats {
  totalWords      : nat;
  totalCategories : nat;
  wrongWords      : nat;
  todayCount      : Z;
}.

Definition DEFAULT_CATEGORIES : list string :=
  ["식당"; "교통"; "쇼핑"; "숙소"; "긴급상황"].

Definition getCategories (s : Store.t) : list Category.t :=
  Store.getCategories s.

Definition getCategoryById (id : string) (s : Store.t) : option Category.t :=
  snd <$> list_find (λ c, Category.id c = id) (getCategories s).

Definition getWords (s : Store.t) : list Word.t := Store.getWords s.

Definition getWordById (id : string) (s : Store.t) : option Word.t :=
  snd <$> list_find (λ w, Word.id w = id) (getWords s).

(** [fresh k] is what the [k]-th creation draws from the host: the value of
    [generateId ()] and the value of [today ()], which the source always
    calls together.  [initDefaultCategories] creates five in a row. *)
Definition initDefaultCategories (fresh : nat → string * string)
    (s : Store.t) : Store.t :=
  let existing := Store.getCategories s in
  if decide (0 < length existing)%nat then s
  else
    let defaults :=
      imap (λ k name, Category.mk (fresh k).1 name true (fresh k).2)
        DEFAULT_CATEGORIES in
    Store.setCategories defaults s.

Definition deleteCategory (id : string) (s : Store.t)
  : Outcome unit * Store.t :=
  let categories := getCategories s in
  match list_find (λ c, Category.id c = id) categories with
  | None => (Failed "카테고리를 찾을 수 없습니다.", s)
  | Some _ =>
      let words := filter (λ w, Word.categoryId w ≠ id) (Store.getWords s) in
      let s := Store.setWords words s in
      let s :=
        Store.setCategories (filter (λ c, Category.id c ≠ id) categories) s in
      (Ok (), s)
  end.

Definition updateWord (id : string) (fields : Fields) (s : Store.t)
  : Outcome Word.t * Store.t :=
  let words := getWords s in
  match list_find (λ w, Word.id w = id) words with
  | None => (Failed "단어를 찾을 수 없습니다.", s)
  | Some (idx, w0) =>
      let updated :=
        Word.mk (Word.id w0)
          (default (Word.japanese w0) (fieldJapanese fields))
          (default (Word.furigana w0) (fieldFurigana fields))
          (default (Word.korean w0) (fieldKorean fields))
          (default (Word.categoryId w0) (fieldCategoryId fields))
          (Word.wrongCount w0) (Word.correctStreak w0) (Word.createdAt w0) in
      (Ok updated, Store.setWords (<[idx:=updated]> words) s)
  end.

Definition deleteWord (id : string) (s : Store.t) : Outcome unit * Store.t :=
  let words := getWords s in
  match list_find (λ w, Word.id w = id) words with
  | None => (Failed "단어를 찾을 수 없습니다.", s)
  | Some _ =>
      (Ok (), Store.setWords (filter (λ w, Word.id w ≠ id) words) s)
  end.

Definition getStudyLog (s : Store.t) : gmap string StudyLogEntry.t :=
  Store.getStudyLog s.

(** [today] is the value of [today ()] at the call. *)
Definition getTodayStudyCount (today : string) (s : Store.t) : Z :=
  let log := getStudyLog s in
  match log !! today with
  | Some e => StudyLogEntry.count e
  | None => 0
  end.

Definition getStats (today : string) (s : Store.t) : Stats :=
  let words := getWords s in
  let categories := getCategories s in
  mkStats (length words) (length categories)
    (length (filter (λ w, Word.wrongCount w > 0) words))
    (getTodayStudyCount today s).

Section WithTrim.
(** [String.prototype.trim], of the host. *)
Variable trim : string → string.

(** [newId] and [today] are the values of [generateId ()] and [today ()]
    at the call. *)
Definition addCategory (newId today : string) (name : string) (s : Store.t)
  : Outcome Category.t * Store.t :=
  let trimmed := trim name in
  if decide (trimmed = "") then (Failed "카테고리 이름을 입력해주세요.", s)
  else
    let existing := getCategories s in
    if decide (Exists (λ c, Category.name c = trimmed) existing)
    then (Failed "이미 존재하는 카테고리입니다.", s)
    else
      let newCategory := Category.mk newId trimmed false today in
      (Ok newCategory, Store.setCategories (existing ++ [newCategory]) s).

Definition renameCategory (id newName : string) (s : Store.t)
  : Outcome Category.t * Store.t :=
  let trimmed := trim newName in
  if decide (trimmed = "") then (Failed "카테고리 이름을 입력해주세요.", s)
  else
    let categories := getCategories s in
    match list_find (λ c, Category.id c = id) categories with
    | None => (Failed "카테고리를 찾을 수 없습니다.", s)
    | Some (idx, c0) =>
        let renamed := Category.set_name trimmed c0 in
        (Ok renamed, Store.setCategories (<[idx:=renamed]> categories) s)
    end.

Definition addWord (newId today : string) (input : NewWord) (s : Store.t)
  : Outcome Word.t * Store.t :=
  let furigana := default "" (newFurigana input) in
  if decide (trim (newJapanese input) = "")
  then (Failed "일본어를 입력해주세요.", s)
  else if decide (trim (newKorean input) = "")
  then (Failed "한글 뜻을 입력해주세요.", s)
  else if decide (newCategoryId input = "")
  then (Failed "카테고리를 선택해주세요.", s)
  else
    match getCategoryById (newCategoryId input) s with
    | None => (Failed "존재하지 않는 카테고리입니다.", s)
    | Some _ =>
        let newWord :=
          Word.mk newId (trim (newJapanese input)) (trim furigana)
            (trim (newKorean input)) (newCategoryId input) 0 0 today in
        (Ok newWord, Store.setWords (getWords s ++ [newWord]) s)
    end.
(** [bulkAddWords].  The accumulator of the loop over the rows: the
    [results] object, the store, and the number of creations made so far. *)
Definition pushError (e : string) (r : BulkResult) : BulkResult :=
  mkBulk (added r) (errors r ++ [e]).

Definition bulkAddWord (fresh : nat → string * string) (lineNum : string)
    (row : Row) (categoryId : string)
    (acc : BulkResult * Store.t * nat) : BulkResult * Store.t * nat :=
  let '(results, s, k) := acc in
  match addWord (fresh k).1 (fresh k).2
          (mkNewWord (rowJapanese row) (Some (default "" (rowFurigana row)))
             (rowKorean row) categoryId) s with
  | (Ok _, s') => (mkBulk (S (added results)) (errors results), s', S k)
  | (Failed e, s') => (pushError (lineNum +:+ "행: " +:+ e) results, s', k)
  end.

Definition bulkRow (fresh : nat → string * string) (i : nat) (row : Row)
    (acc : BulkResult * Store.t * nat) : BulkResult * Store.t * nat :=
  let '(results, s, k) := acc in
  let lineNum := pretty (i + 2)%nat in
  let categoryName := trim (default "" (rowCategoryName row)) in
  if decide (categoryName = "")
  then (pushError (lineNum +:+ "행: 카테고리가 없습니다.") results, s, k)
  else
    match list_find (λ c, Category.name c = categoryName) (getCategories s) with
    | Some (_, existing) =>
        bulkAddWord fresh lineNum row (Category.id existing) (results, s, k)
    | None =>
        match addCategory (fresh k).1 (fresh k).2 categoryName s with
        | (Failed e, s') =>
            (pushError (lineNum +:+ "행: 카테고리 생성 실패 - " +:+ e) results,
             s', k)
        | (Ok category, s') =>
            bulkAddWord fresh lineNum row (Category.id category)
              (results, s', S k)
        end
    end.

Fixpoint bulkFrom (fresh : nat → string * string) (i : nat) (rows : list Row)
    (acc : BulkResult * Store.t * nat) : BulkResult * Store.t * nat :=
  match rows with
  | [] => acc
  | row :: rest => bulkFrom fresh (S i) rest (bulkRow fresh i row acc)
  end.

Definition bulkAddWords (fresh : nat → string * string) (rows : list Row)
    (s : Store.t) : BulkResult * Store.t :=
  let '(results, s', _) := bulkFrom fresh 0 rows (mkBulk 0 [], s, 0%nat) in
  (results, s').
End WithTrim.
End Crud.

(** ** Sequences of operations on a store *)

(** The operations of [data.js] that write to the store, with their
    arguments (and what they draw from the host). *)
Inductive Command : Type :=
| AddCategory (newId today name : string)
| DeleteCategory (id : string)
| RenameCategory (id newName : string)
| AddWord (newId today : string) (input : Crud.NewWord)
| UpdateWord (id : string) (fields : Crud.Fields)
| DeleteWord (id : string)
| MarkCorrect (id : string)
| MarkWrong (id : string)
| RecordStudy (today : string) (count : Z) (categoryId : string).

(** An operation of [data.js] that only uses the three collections of
    [Storage.t]. *)
Definition onStorage (f : Storage.t → Storage.t) (s : Store.t) : Store.t :=
  Store.mk (f (Store.storage s)) (Store.categories s).

Definition run (trim : string → string) (c : Command) (s : Store.t)
  : Store.t :=
  match c with
  | AddCategory newId today name =>
      (Crud.addCategory trim newId today name s).2
  | DeleteCategory id => (Crud.deleteCategory id s).2
  | RenameCategory id newName => (Crud.renameCategory trim id newName s).2
  | AddWord newId today input => (Crud.addWord trim newId today input s).2
  | UpdateWord id fields => (Crud.updateWord id fields s).2
  | DeleteWord id => (Crud.deleteWord id s).2
  | MarkCorrect id => onStorage (Data.markCorrect id) s
  | MarkWrong id => onStorage (Data.markWrong id) s
  | RecordStudy today count categoryId =>
      onStorage (Data.recordStudy today count categoryId) s
  end.

Definition runAll (trim : string → string) (cs : list Command) (s : Store.t)
  : Store.t :=
  foldl (λ s c, run trim c s) s cs.

(** No counter of a word is negative. *)
Definition countersNonNegative (s : Store.t) : Prop :=
  Forall (λ w, 0 ≤ Word.wrongCount w ∧ 0 ≤ Word.correctStreak w)
    (Store.getWords s).

(** Every word belongs to a category of the store. *)
Definition categoriesResolve (s : Store.t) : Prop :=
  Forall (λ w, is_Some (Crud.getCategoryById (Word.categoryId w) s))
    (Store.getWords s).

(** No two words have the same id. *)
Definition uniqueWordIds (s : Store.t) : Prop :=
  NoDup (Word.id <$> Store.getWords s).

(** [updateWord] takes any category id; the form that calls it offers the
    categories of the store.  A run in which every [updateWord] that gives a
    category gives one of the store at that moment: *)
Fixpoint updatesResolve (trim : string → string) (cs : list Command)
    (s : Store.t) : Prop :=
  match cs with
  | [] => True
  | c :: rest =>
      match c with
      | UpdateWord _ fields =>
          match Crud.fieldCategoryId fields with
          | Some categoryId => is_Some (Crud.getCategoryById categoryId s)
          | None => True
          end
      | _ => True
      end
      ∧ updatesResolve trim rest (run trim c s)
  end.

(** A run in which [generateId] never returns the id of a word of the
    store: *)
Fixpoint idsFresh (trim : string → string) (cs : list Command)
    (s : Store.t) : Prop :=
  match cs with
  | [] => True
  | c :: rest =>
      match c with
      | AddWord newId _ _ => newId ∉ Word.id <$> Store.getWords s
      | _ => True
      end
      ∧ idsFresh trim rest (run trim c s)
  end.

(** What an operation may append to the words: [addWord] appends a word
    with the id drawn, both counters at 0 and a category of the store. *)
Definition appendedBy (c : Command) (s : Store.t) (w : Word.t) : Prop :=
  ∃ newId today input,
    c = AddWord newId today input
    ∧ Word.id w = newId
    ∧ Word.wrongCount w = 0 ∧ Word.correctStreak w = 0
    ∧ is_Some (Crud.getCategoryById (Word.categoryId w) s).

(** How an operation may rewrite a word: the id stays; counters that were
    not negative are not negative afterwards; the category stays unless
    the operation is an [updateWord] that gives one. *)
Definition rewrittenBy (c : Command) (w0 w1 : Word.t) : Prop :=
  Word.id w1 = Word.id w0
  ∧ (0 ≤ Word.wrongCount w0 ∧ 0 ≤ Word.correctStreak w0 →
     0 ≤ Word.wrongCount w1 ∧ 0 ≤ Word.correctStreak w1)
  ∧ (Word.categoryId w1 = Word.categoryId w0
     ∨ ∃ id fields, c = UpdateWord id fields
                    ∧ Crud.fieldCategoryId fields
                      = Some (Word.categoryId w1)).

(** How an operation changes the words: it leaves them, keeps some of
    them, appends one, or rewrites one in place. *)
Inductive wordsChange (c : Command) (s : Store.t) (ws : list Word.t)
  : list Word.t → Prop :=
| words_same : wordsChange c s ws ws
| words_filter (P : Word.t → Prop) `{!∀ w, Decision (P w)} :
    wordsChange c s ws (filter P ws)
| words_append w : appendedBy c s w → wordsChange c s ws (ws ++ [w])
| words_rewrite idx w0 w1 :
    ws !! idx = Some w0 → rewrittenBy c w0 w1 →
    wordsChange c s ws (<[idx:=w1]> ws).

(** A creation with what the host gave at some draw. *)
Definition isCreation (fresh : nat → string * string) (c : Command) : Prop :=
  ∃ k, (∃ name, c = AddCategory (fresh k).1 (fresh k).2 name)
       ∨ (∃ input, c = AddWord (fresh k).1 (fresh k).2 input).

(** What the loop of [bulkAddWords] has done between two of its states,
    [n] rows apart. *)
Definition bulkProgress (trim : string → string)
    (fresh : nat → string * string) (n : nat)
    (acc acc' : Crud.BulkResult * Store.t * nat) : Prop :=
  let '(res, s, _) := acc in
  let '(res', s', _) := acc' in
  (Crud.added res' + length (Crud.errors res')
   = Crud.added res + length (Crud.errors res) + n)%nat
  ∧ (∃ cmds, s' = runAll trim cmds s ∧ Forall (isCreation fresh) cmds)
  ∧ (∃ newWords,
       Store.getWords s' = Store.getWords s ++ newWords
       ∧ Crud.added res' = (Crud.added res + length newWords)%nat
       ∧ Forall (λ w, Word.wrongCount w = 0 ∧ Word.correctStreak w = 0)
           newWords)
  ∧ (∃ newCategories,
       Store.getCategories s' = Store.getCategories s ++ newCategories
       ∧ Forall (λ c, Category.isDefault c = false) newCategories)
  ∧ Store.getStudyLog s' = Store.getStudyLog s
  ∧ Store.getSettings s' = Store.getSettings s.

(** ** csv.js: reading and writing a line *)

Module CSV.
Definition quote : ascii := ascii_of_nat 34.
Definition comma : ascii := ascii_of_nat 44.
Definition lineFeed : ascii := ascii_of_nat 10.

(** [str.includes (c)] for a one-character [c]. *)
Fixpoint includes (c : ascii) (str : string) : bool :=
  match str with
  | EmptyString => false
  | String a rest => if decide (a = c) then true else includes c rest
  end.

(** [str.replace], with the global pattern for a double quote and two
    double quotes as the replacement. *)
Fixpoint doubleQuotes (str : string) : string :=
  match str with
  | EmptyString => EmptyString
  | String a rest =>
      if decide (a = quote) then String quote (String quote (doubleQuotes rest))
      else String a (doubleQuotes rest)
  end.

Definition escapeField (str : string) : string :=
  if includes comma str || includes quote str || includes lineFeed str
  then String quote (doubleQuotes str +:+ String quote EmptyString)
  else str.

(** [row.map (escapeField).join] with a comma: a line of [wordsToCSV]. *)
Definition toLine (row : list string) : string :=
  String.concat (String comma EmptyString) (escapeField <$> row).

Section WithTrim.
(** [String.prototype.trim], of the host. *)
Variable trim : string → string.

(** The function that [parseCSVString] maps over the lines: the loop over
    the characters of [line], from those that are left, with the variables
    [inQuotes], [current] and [fields] of the source. *)
Fixpoint parseFrom (line : string) (inQuotes : bool) (current : string)
    (fields : list string) : list string :=
  match line with
  | EmptyString => fields ++ [trim current]
  | String char rest =>
      if decide (char = quote) then
        match inQuotes, rest with
        | true, String next rest' =>
            if decide (next = quote)
            then parseFrom rest' inQuotes
                   (current +:+ String quote EmptyString) fields
            else parseFrom rest (negb inQuotes) current fields
        | _, _ => parseFrom rest (negb inQuotes) current fields
        end
      else if decide (char = comma ∧ inQuotes = false) then
        parseFrom rest inQuotes EmptyString (fields ++ [trim current])
      else
        parseFrom rest inQuotes (current +:+ String char EmptyString) fields
  end.

Definition parseLine (line : string) : list string :=
  parseFrom line false EmptyString [].
End WithTrim.
End CSV.

(** ** csv.js: reading and writing the text *)

Module CSVText.
Definition carriageReturn : ascii := ascii_of_nat 13.

Definition lineBreak : string :=
  String carriageReturn (String CSV.lineFeed EmptyString).

(** [text.split] at the pattern "an optional carriage return, then a line
    feed": the pieces between the matches, [current] being the piece that
    is being read. *)
Fixpoint splitFrom (text : string) (current : string) : list string :=
  match text with
  | EmptyString => [current]
  | String a rest =>
      if decide (a = CSV.lineFeed) then current :: splitFrom rest EmptyString
      else
        match rest with
        | String b rest' =>
            if decide (a = carriageReturn ∧ b = CSV.lineFeed)
            then current :: splitFrom rest' EmptyString
            else splitFrom rest (current +:+ String a EmptyString)
        | EmptyString => splitFrom rest (current +:+ String a EmptyString)
        end
  end.

Definition splitLines (text : string) : list string :=
  splitFrom text EmptyString.

Definition parseCSVString (trim : string → string) (text : string)
  : list (list string) :=
  CSV.parseLine trim <$> splitLines (trim text).

Definition header : list string :=
  ["일본어"; "후리가나"; "한글뜻"; "카테고리"].

(** [Object.fromEntries] of the pairs of id and name: of two categories
    with the same id the later one counts. *)
Definition categoryMap (categories : list Category.t) : gmap string string :=
  foldl (λ m c, <[Category.id c := Category.name c]> m) ∅ categories.

(** The row of a word; a name that is missing or empty reads as the empty
    string. *)
Definition rowOf (categories : list Category.t) (w : Word.t) : list string :=
  [Word.japanese w; Word.furigana w; Word.korean w;
   default "" (categoryMap categories !! Word.categoryId w)].

Definition wordsToCSV (words : list Word.t) (s : Store.t) : string :=
  let categories := Crud.getCategories s in
  let rows := rowOf categories <$> words in
  String.concat lineBreak (CSV.toLine <$> header :: rows).
End CSVText.

(** What an answer does to the storage: the card keeps its identity, the
    settings stay, and counters do not become negative. *)
Definition movesCounters (st st' : Storage.t) : Prop :=
  Forall2 sameCard (Storage.words st) (Storage.words st')
  ∧ Storage.settings st' = Storage.settings st
  ∧ (Forall (λ w, 0 ≤ Word.wrongCount w ∧ 0 ≤ Word.correctStreak w)
       (Storage.words st) →
     Forall (λ w, 0 ≤ Word.wrongCount w ∧ 0 ≤ Word.correctStreak w)
       (Storage.words st')).

(** * Facts about the array primitives *)

Section ArrayFacts.
Context {A : Type}.
Implicit Types (arr : list A) (cmp : A → A → Z).

Lemma relativeIndex_le len k : (relativeIndex len k ≤ len)%nat.
Proof. unfold relativeIndex. case_decide; lia. Qed.

Lemma relativeIndex_nonneg len k :
  0 ≤ k → relativeIndex len k = (Z.to_nat k `min` len)%nat.
Proof. intros Hk. unfold relativeIndex. case_decide; lia. Qed.

Lemma relativeIndex_neg len k :
  k < 0 → relativeIndex len k = (len - Z.to_nat (- k))%nat.
Proof. intros Hk. unfold relativeIndex. case_decide; lia. Qed.

Lemma slice_from_start last arr :
  slice 0 last arr = take (relativeIndex (length arr) last) arr.
Proof.
  unfold slice.
  replace (relativeIndex (length arr) 0) with 0%nat
    by (unfold relativeIndex; case_decide; lia).
  by rewrite drop_0, Nat.sub_0_r.
Qed.

Lemma slice_nonneg last arr :
  0 ≤ last → slice 0 last arr = take (Z.to_nat last) arr.
Proof.
  intros Hl. rewrite slice_from_start, relativeIndex_nonneg by done.
  destruct (decide (Z.to_nat last ≤ length arr)%nat).
  - by rewrite Nat.min_l.
  - rewrite Nat.min_r, !take_ge by lia. done.
Qed.

Lemma length_slice_nonneg last arr :
  0 ≤ last →
  length (slice 0 last arr) = (Z.to_nat last `min` length arr)%nat.
Proof. intros Hl. by rewrite slice_nonneg, length_take. Qed.

Lemma slice_sublist last arr : slice 0 last arr `sublist_of` arr.
Proof. rewrite slice_from_start. apply sublist_take. Qed.

Lemma insertSorted_Permutation cmp x arr : insertSorted cmp x arr ≡ₚ x :: arr.
Proof.
  induction arr as [|y rest IH]; simpl; [done|].
  case_decide; [done|]. by rewrite IH, Permutation_swap.
Qed.

Lemma sort_Permutation cmp arr : sort cmp arr ≡ₚ arr.
Proof.
  induction arr as [|x rest IH]; simpl; [done|].
  by rewrite insertSorted_Permutation, IH.
Qed.

Lemma length_sort cmp arr : length (sort cmp arr) = length arr.
Proof. by rewrite sort_Permutation. Qed.

Lemma swap_Permutation i j arr : swap i j arr ≡ₚ arr.
Proof.
  unfold swap. destruct (arr !! i) as [x|] eqn:Hi; [|done].
  destruct (arr !! j) as [y|] eqn:Hj; [|done].
  by apply Permutation_insert_swap.
Qed.

Lemma shuffleLoop_Permutation rnd i arr : Quiz.shuffleLoop rnd i arr ≡ₚ arr.
Proof.
  revert arr. induction i as [|i IH]; intros arr; simpl; [done|].
  by rewrite IH, swap_Permutation.
Qed.

Lemma shuffle_Permutation rnd arr : Quiz.shuffle rnd arr ≡ₚ arr.
Proof. apply shuffleLoop_Permutation. Qed.
End ArrayFacts.

Section SortFacts.
Context {A : Type} (cmp : A → A → Z).
Implicit Types (arr : list A).

Section Consistent.
Hypothesis cmp_total : ∀ a b, cmp a b ≤ 0 ∨ cmp b a ≤ 0.
Hypothesis cmp_trans : ∀ a b c, cmp a b ≤ 0 → cmp b c ≤ 0 → cmp a c ≤ 0.

Lemma insertSorted_StronglySorted x arr :
  StronglySorted (inOrder cmp) arr →
  StronglySorted (inOrder cmp) (insertSorted cmp x arr).
Proof.
  induction 1 as [|y rest Hrest IH Hy]; simpl.
  - repeat constructor.
  - case_decide as Hxy.
    + constructor; [by constructor|].
      constructor; [done|].
      eapply Forall_impl; [exact Hy|]. intros z Hz. by eapply cmp_trans.
    + constructor; [done|].
      rewrite insertSorted_Permutation. constructor; [|done].
      destruct (cmp_total x y); [lia|done].
Qed.

Lemma sort_StronglySorted arr : StronglySorted (inOrder cmp) (sort cmp arr).
Proof.
  induction arr as [|x rest IH]; simpl; [constructor|].
  by apply insertSorted_StronglySorted.
Qed.

(** Whatever a prefix of the sorted array keeps comes before whatever
    it leaves out. *)
Lemma sort_take_drop n arr a b :
  a ∈ take n (sort cmp arr) → b ∈ drop n (sort cmp arr) → cmp a b ≤ 0.
Proof.
  intros Ha Hb.
  eapply (StronglySorted_app_1_elem_of (inOrder cmp)); [|exact Ha|exact Hb].
  rewrite take_drop. apply sort_StronglySorted.
Qed.
End Consistent.

(** Stability: elements that compare as equal keep their relative order.
    It is stated per key: the sub-array of the elements with a given key
    is the same before and after the sort. *)
Lemma sort_stable {K} `{EqDecision K} (key : A → K) (k : K) arr :
  (∀ a b, key a = key b → cmp a b ≤ 0) →
  filter (λ a, key a = k) (sort cmp arr) = filter (λ a, key a = k) arr.
Proof.
  intros Hkey.
  assert (Hins : ∀ x l, filter (λ a, key a = k) (insertSorted cmp x l)
                        = filter (λ a, key a = k) (x :: l)).
  { intros x l. induction l as [|y l IHl]; simpl; [done|].
    case_decide as Hxy; [done|].
    rewrite (filter_cons _ y), IHl, !filter_cons.
    repeat case_decide; try done.
    exfalso. apply Hxy, Hkey. congruence. }
  induction arr as [|x rest IH]; simpl; [done|].
  by rewrite Hins, !filter_cons, IH.
Qed.
End SortFacts.

(** * Facts about lists *)

Lemma filter_sublist_impl {A} (P Q : A → Prop)
    `{!∀ x, Decision (P x)} `{!∀ x, Decision (Q x)} (l : list A) :
  (∀ x, P x → Q x) → filter P l `sublist_of` filter Q l.
Proof.
  intros HPQ. induction l as [|x l IH]; [done|].
  rewrite !filter_cons. destruct (decide (P x)) as [HP|HP].
  - rewrite decide_True by auto. by constructor.
  - case_decide; [by constructor|done].
Qed.

Lemma filter_ext_elem_of {A} (P Q : A → Prop)
    `{!∀ x, Decision (P x)} `{!∀ x, Decision (Q x)} (l : list A) :
  (∀ x, x ∈ l → P x ↔ Q x) → filter P l = filter Q l.
Proof.
  induction l as [|x l IH]; intros HPQ; [done|].
  rewrite !filter_cons. rewrite IH; [|intros y Hy; apply HPQ; by right].
  destruct (HPQ x) as [H1 H2]; [by left|].
  repeat case_decide; try done; tauto.
Qed.

Lemma NoDup_fmap_elem_inj {A B} (f : A → B) (l : list A) x y :
  NoDup (f <$> l) → x ∈ l → y ∈ l → f x = f y → x = y.
Proof.
  induction l as [|z l IH]; simpl; [by intros _ ?%elem_of_nil|].
  intros [Hz Hl]%NoDup_cons Hx Hy Hf.
  apply elem_of_cons in Hx as [Hx|Hx], Hy as [Hy|Hy]; subst.
  - done.
  - exfalso. apply Hz. rewrite Hf. by apply list_elem_of_fmap_2.
  - exfalso. apply Hz. rewrite <-Hf. by apply list_elem_of_fmap_2.
  - by apply IH.
Qed.

Lemma submseteq_NoDup {A} (l k : list A) : l ⊆+ k → NoDup k → NoDup l.
Proof.
  intros [k' Hk]%submseteq_Permutation. rewrite Hk, NoDup_app.
  by intros [? _].
Qed.

Lemma filter_all {A} (P : A → Prop) `{!∀ x, Decision (P x)} (l : list A) :
  (∀ x, x ∈ l → P x) → filter P l = l.
Proof.
  induction l as [|x l IH]; intros HP; [done|].
  rewrite filter_cons, decide_True by (apply HP; by left).
  f_equal. apply IH. intros y Hy. apply HP. by right.
Qed.

Lemma filter_none {A} (P : A → Prop) `{!∀ x, Decision (P x)} (l : list A) :
  (∀ x, x ∈ l → ¬ P x) → filter P l = [].
Proof.
  induction l as [|x l IH]; intros HP; [done|].
  rewrite filter_cons, decide_False by (apply HP; by left).
  apply IH. intros y Hy. apply HP. by right.
Qed.

Lemma elem_of_slice {A} (last : Z) (l : list A) x :
  x ∈ slice 0 last l → x ∈ l.
Proof.
  intros Hx. eapply elem_of_submseteq; [exact Hx|].
  apply sublist_submseteq, slice_sublist.
Qed.

(** * The daily selection *)

Section SchedulerFacts.
Variable localeCompare : string → string → Z.
Variable rnd : nat → nat.
Implicit Types (st : Storage.t) (pool : list Word.t) (w : Word.t).

Lemma buildDailyWords_selected categoryId st :
  categoryId ≠ "wrong" →
  Quiz.buildDailyWords localeCompare rnd categoryId st
  = Quiz.shuffle rnd
      (selectedOf localeCompare (dailyGoalOf st) (scopeWords categoryId st)).
Proof.
  intros Hc. unfold Quiz.buildDailyWords. by case_decide.
Qed.

Lemma buildDailyWords_wrong st :
  Quiz.buildDailyWords localeCompare rnd "wrong" st
  = slice 0 (dailyGoalOf st) (Quiz.shuffle rnd (Data.getWrongWords st)).
Proof. unfold Quiz.buildDailyWords. by case_decide. Qed.

Lemma wrongCandidates_Permutation pool :
  wrongCandidates pool ≡ₚ filter isWrong pool.
Proof. apply sort_Permutation. Qed.

Lemma wrongWordsOf_submseteq d pool : wrongWordsOf d pool ⊆+ filter isWrong pool.
Proof.
  unfold wrongWordsOf. rewrite <-wrongCandidates_Permutation.
  apply sublist_submseteq, slice_sublist.
Qed.

Lemma wrongWordsOf_isWrong d pool w : w ∈ wrongWordsOf d pool → isWrong w ∧ w ∈ pool.
Proof.
  intros Hw. eapply elem_of_submseteq in Hw; [|apply wrongWordsOf_submseteq].
  by apply list_elem_of_filter in Hw.
Qed.

Lemma newWordsOf_submseteq d pool :
  newWordsOf localeCompare d pool ⊆+ filter (λ w, ¬ isWrong w) pool.
Proof.
  unfold newWordsOf. rewrite sort_Permutation.
  apply sublist_submseteq, filter_sublist_impl.
  intros w [Hw _]. unfold isWrong. lia.
Qed.

Lemma selectedOf_submseteq d pool : selectedOf localeCompare d pool ⊆+ pool.
Proof.
  unfold selectedOf.
  trans (filter isWrong pool ++ filter (λ w, ¬ isWrong w) pool);
    [|by rewrite filter_app_complement].
  apply submseteq_app; [apply wrongWordsOf_submseteq|].
  etrans; [|apply newWordsOf_submseteq].
  apply sublist_submseteq, slice_sublist.
Qed.

Lemma buildDailyWords_submseteq categoryId st :
  categoryId ≠ "wrong" →
  Quiz.buildDailyWords localeCompare rnd categoryId st
  ⊆+ scopeWords categoryId st.
Proof.
  intros Hc. rewrite buildDailyWords_selected, shuffle_Permutation by done.
  apply selectedOf_submseteq.
Qed.

(** With unique ids the [Set] of selected ids excludes no new word. *)
Lemma newWordsOf_unique_ids d pool :
  NoDup (Word.id <$> pool) →
  newWordsOf localeCompare d pool
  = sort (byCreatedAt localeCompare) (filter isNew pool).
Proof.
  intros Hids. unfold newWordsOf. f_equal.
  apply filter_ext_elem_of. intros w Hw. split; [by intros [? _]|].
  intros Hnew. split; [done|].
  rewrite elem_of_list_to_set, list_elem_of_fmap.
  intros (w' & Hid & [Hwrong Hw']%wrongWordsOf_isWrong).
  assert (w = w') as <- by eauto using NoDup_fmap_elem_inj.
  unfold isNew, isWrong in *. lia.
Qed.

Lemma newWordsOf_isNew d pool w :
  w ∈ newWordsOf localeCompare d pool → isNew w ∧ w ∈ pool.
Proof.
  unfold newWordsOf. rewrite sort_Permutation, list_elem_of_filter.
  by intros [[? _] ?].
Qed.

Lemma length_wrongWordsOf d pool :
  2 ≤ d →
  length (wrongWordsOf d pool)
  = (Z.to_nat (d - 2) `min` length (filter isWrong pool))%nat.
Proof.
  intros Hd. unfold wrongWordsOf.
  rewrite length_slice_nonneg by lia.
  by rewrite wrongCandidates_Permutation.
Qed.

(** The wrong words and the new words of the selection, each told apart
    by its counter. *)
Lemma filter_isWrong_selectedOf d pool :
  filter isWrong (selectedOf localeCompare d pool) = wrongWordsOf d pool.
Proof.
  unfold selectedOf. rewrite filter_app.
  rewrite filter_all by (intros w Hw; apply (wrongWordsOf_isWrong _ _ _ Hw)).
  rewrite filter_none; [by rewrite app_nil_r|].
  intros w [Hw _]%elem_of_slice%newWordsOf_isNew.
  unfold isNew, isWrong in *. lia.
Qed.

Lemma filter_isNew_selectedOf d pool :
  filter isNew (selectedOf localeCompare d pool)
  = slice 0 (d - Z.of_nat (length (wrongWordsOf d pool)))
      (newWordsOf localeCompare d pool).
Proof.
  unfold selectedOf. rewrite filter_app.
  rewrite filter_none; [simpl|].
  - apply filter_all.
    by intros w [Hw _]%elem_of_slice%newWordsOf_isNew.
  - intros w [Hw _]%wrongWordsOf_isWrong. unfold isNew, isWrong in *. lia.
Qed.

Lemma length_newWords_selected d pool :
  2 ≤ d →
  NoDup (Word.id <$> pool) →
  length (slice 0 (d - Z.of_nat (length (wrongWordsOf d pool)))
            (newWordsOf localeCompare d pool))
  = ((Z.to_nat d - length (wrongWordsOf d pool))
       `min` length (filter isNew pool))%nat.
Proof.
  intros Hd Hids.
  pose proof (length_wrongWordsOf d pool Hd) as Hw.
  rewrite length_slice_nonneg by lia.
  rewrite newWordsOf_unique_ids, length_sort by done.
  f_equal. lia.
Qed.

Lemma length_selectedOf d pool :
  2 ≤ d →
  NoDup (Word.id <$> pool) →
  length (selectedOf localeCompare d pool)
  = (length (wrongWordsOf d pool)
     + (Z.to_nat d - length (wrongWordsOf d pool))
         `min` length (filter isNew pool))%nat.
Proof.
  intros Hd Hids. unfold selectedOf.
  by rewrite length_app, length_newWords_selected.
Qed.

(** Without negative counters a pool is made of wrong and new words. *)
Lemma length_pool_split pool :
  Forall (λ w, 0 ≤ Word.wrongCount w) pool →
  length pool
  = (length (filter isWrong pool) + length (filter isNew pool))%nat.
Proof.
  induction 1 as [|w pool Hw _ IH]; [done|].
  rewrite !filter_cons. simpl. rewrite IH.
  unfold isWrong, isNew. repeat case_decide; simpl; lia.
Qed.
End SchedulerFacts.

(** * The sample collation is a consistent comparator *)

Lemma string_compare_not_Gt_trans (a b c : string) :
  String.compare a b ≠ Gt → String.compare b c ≠ Gt → String.compare a c ≠ Gt.
Proof.
  revert b c. induction a as [|x a IH]; intros [|y b] [|z c]; simpl; try done.
  unfold Ascii.compare.
  destruct (N.compare_spec (N_of_ascii x) (N_of_ascii y)) as [Hxy|Hxy|Hxy];
    [|intros _|done].
  - rewrite Hxy.
    destruct (N_of_ascii y ?= N_of_ascii z)%N; [apply IH|done|done].
  - destruct (N.compare_spec (N_of_ascii y) (N_of_ascii z)) as [Hyz|Hyz|Hyz];
      [intros _|intros _|done].
    + rewrite <-Hyz. by apply N.compare_lt_iff in Hxy as ->.
    + assert (N_of_ascii x < N_of_ascii z)%N as Hxz by lia.
      by apply N.compare_lt_iff in Hxz as ->.
Qed.

Lemma codeUnitCompare_le a b :
  codeUnitCompare a b ≤ 0 ↔ String.compare a b ≠ Gt.
Proof. unfold codeUnitCompare. destruct (String.compare a b); split; (done || lia). Qed.

Lemma codeUnitCompare_total a b :
  codeUnitCompare a b ≤ 0 ∨ codeUnitCompare b a ≤ 0.
Proof.
  rewrite !codeUnitCompare_le, (String.compare_antisym a b).
  destruct (String.compare b a); simpl; auto.
Qed.

Lemma codeUnitCompare_trans a b c :
  codeUnitCompare a b ≤ 0 → codeUnitCompare b c ≤ 0 → codeUnitCompare a c ≤ 0.
Proof. rewrite !codeUnitCompare_le. apply string_compare_not_Gt_trans. Qed.

(** * The wrong words of a selection *)

(** The wrong words of a selection, for a daily goal of at least 2: the
    first [dailyGoal - 2] wrong candidates, which are the wrong words of the
    pool in descending order of [wrongCount], ties in their original
    order. *)
Lemma wrong_words_selected localeCompare rnd categoryId st :
  categoryId ≠ "wrong" →
  2 ≤ dailyGoalOf st →
  filter isWrong (Quiz.buildDailyWords localeCompare rnd categoryId st)
  ≡ₚ take (Z.to_nat (dailyGoalOf st - 2))
       (wrongCandidates (scopeWords categoryId st)).
Proof.
  intros Hc Hd.
  rewrite buildDailyWords_selected, shuffle_Permutation by done.
  rewrite filter_isWrong_selectedOf. unfold wrongWordsOf.
  by rewrite slice_nonneg by lia.
Qed.

(** At a daily goal of 1 the bound of [slice] is [-1]: all the wrong
    candidates but the last one are selected. *)
Lemma length_wrongWordsOf_daily_goal_one pool :
  length (wrongWordsOf 1 pool) = (length (filter isWrong pool) - 1)%nat.
Proof.
  unfold wrongWordsOf. rewrite slice_from_start, relativeIndex_neg by lia.
  rewrite length_take, wrongCandidates_Permutation. lia.
Qed.

Lemma StronglySorted_weaken {A} (R R' : A → A → Prop) (l : list A) :
  (∀ a b, R a b → R' a b) → StronglySorted R l → StronglySorted R' l.
Proof.
  intros HR. induction 1 as [|x l _ IH Hx]; constructor; [done|].
  eapply Forall_impl; [exact Hx|]. intros y. apply HR.
Qed.

Lemma wrongCandidates_descending pool :
  StronglySorted (λ a b, Word.wrongCount b ≤ Word.wrongCount a)
    (wrongCandidates pool).
Proof.
  eapply StronglySorted_weaken;
    [|apply (sort_StronglySorted byWrongCount)].
  - unfold inOrder, byWrongCount. intros a b. lia.
  - unfold byWrongCount. intros a b. lia.
  - unfold byWrongCount. intros a b c. lia.
Qed.

Lemma wrongCandidates_stable pool k :
  filter (λ w, Word.wrongCount w = k) (wrongCandidates pool)
  = filter (λ w, Word.wrongCount w = k) (filter isWrong pool).
Proof.
  apply (sort_stable byWrongCount Word.wrongCount).
  unfold byWrongCount. intros a b. lia.
Qed.

(** * Claims about the daily selection *)

(** C1, as amended.  For a scope other than ['wrong'], a daily goal of at
    least 2 and a pool with unique ids, holding [W] words with
    [wrongCount >= 1] and [N] words with [wrongCount = 0]:
    [buildDailyWords] returns [min W (dailyGoal - 2)] wrong words and fills
    up to [dailyGoal] with new words as far as there are any.  So, when no
    counter of the pool is negative, the length is exactly [dailyGoal] if
    the pool has at least [dailyGoal] words, two of them new; and it is
    exactly the size of the pool if the pool has fewer than [dailyGoal]
    words, at most [dailyGoal - 2] of them wrong. *)
Theorem quota_with_reserved_new_slots localeCompare rnd categoryId st :
  categoryId ≠ "wrong" →
  2 ≤ dailyGoalOf st →
  NoDup (Word.id <$> scopeWords categoryId st) →
  let dailyGoal := Z.to_nat (dailyGoalOf st) in
  let pool := scopeWords categoryId st in
  let W := length (filter isWrong pool) in
  let N := length (filter isNew pool) in
  let result := Quiz.buildDailyWords localeCompare rnd categoryId st in
  length result
  = (W `min` (dailyGoal - 2) + N `min` (dailyGoal - W `min` (dailyGoal - 2)))%nat
  ∧ (Forall (λ w, 0 ≤ Word.wrongCount w) pool →
     ((dailyGoal ≤ length pool)%nat → (2 ≤ N)%nat → length result = dailyGoal)
     ∧ ((length pool < dailyGoal)%nat → (W ≤ dailyGoal - 2)%nat →
        length result = length pool)).
Proof.
  intros Hc Hd Hids dailyGoal pool W N result.
  assert (Hlen : length result
    = (W `min` (dailyGoal - 2)
       + N `min` (dailyGoal - W `min` (dailyGoal - 2)))%nat).
  { unfold result.
    rewrite buildDailyWords_selected, shuffle_Permutation by done.
    rewrite length_selectedOf, length_wrongWordsOf by done.
    fold pool W N. unfold dailyGoal. lia. }
  split; [done|]. intros Hnonneg.
  pose proof (length_pool_split pool Hnonneg) as Hpool. fold W N in Hpool.
  split; intros; lia.
Qed.

Lemma quota_with_reserved_new_slots_witness :
  let st := sampleStorage 3 [sampleWord "a" 2 "2024-03-01";
                             sampleWord "b" 0 "2024-03-02";
                             sampleWord "c" 1 "2024-03-02";
                             sampleWord "d" 0 "2024-03-01"] in
  length (Quiz.buildDailyWords codeUnitCompare zeroDraws "all" st) = 3%nat.
Proof.
  intros st.
  destruct (quota_with_reserved_new_slots codeUnitCompare zeroDraws "all" st)
    as (_ & Hquota).
  - discriminate.
  - vm_compute. discriminate.
  - compute_done.
  - destruct Hquota as [Hfull _].
    + repeat constructor; vm_compute; discriminate.
    + apply Hfull; vm_compute; lia.
Defined.

(** C1, as stated, fails: with a daily goal of 3 and a pool of three words
    that all have [wrongCount >= 1], one word is returned, not three. *)
Lemma quota_counterexample :
  let st := sampleStorage 3 [sampleWord "a" 2 "2024-03-01";
                             sampleWord "b" 1 "2024-03-02";
                             sampleWord "c" 1 "2024-03-03"] in
  let result := Quiz.buildDailyWords codeUnitCompare zeroDraws "all" st in
  1 ≤ dailyGoalOf st
  ∧ dailyGoalOf st ≤ Z.of_nat (length (scopeWords "all" st))
  ∧ Z.of_nat (length result) ≠ dailyGoalOf st.
Proof. vm_compute. repeat split; discriminate. Qed.

(** C2 at a daily goal of 1.  The budget [dailyGoal - 2] is [-1], and
    [slice (0, -1)] keeps every wrong candidate but the last: a wrong word
    is selected although the budget is not positive. *)
Theorem wrong_slots_at_daily_goal_one localeCompare rnd :
  let wa := sampleWord "a" 3 "2024-03-01" in
  let wb := sampleWord "b" 1 "2024-03-02" in
  let st := sampleStorage 1 [wa; wb] in
  dailyGoalOf st - 2 ≤ 0
  ∧ isWrong wa
  ∧ Quiz.buildDailyWords localeCompare rnd "all" st = [wa].
Proof. vm_compute. repeat split; discriminate. Qed.

(** C6.  For the scope ['wrong'] and a daily goal of at least 1, every
    returned word has [wrongCount >= 1] (so none has [wrongCount = 0]), and
    at most [dailyGoal] words are returned. *)
Theorem wrong_scope_only_wrong_words localeCompare rnd st :
  1 ≤ dailyGoalOf st →
  let result := Quiz.buildDailyWords localeCompare rnd "wrong" st in
  (∀ w, w ∈ result → Word.wrongCount w >= 1)
  ∧ Z.of_nat (length result) ≤ dailyGoalOf st
  ∧ (∀ w, w ∈ result → Word.wrongCount w ≠ 0).
Proof.
  intros Hd result.
  assert (Hwrong : ∀ w, w ∈ result → Word.wrongCount w >= 1).
  { intros w Hw. unfold result in Hw. rewrite buildDailyWords_wrong in Hw.
    apply elem_of_slice in Hw. rewrite shuffle_Permutation in Hw.
    unfold Data.getWrongWords in Hw. rewrite sort_Permutation in Hw.
    by apply list_elem_of_filter in Hw as [Hw _]. }
  split; [done|]. split.
  - unfold result. rewrite buildDailyWords_wrong.
    rewrite length_slice_nonneg by lia. lia.
  - intros w Hw%Hwrong. lia.
Qed.

Lemma wrong_scope_only_wrong_words_witness :
  let st := sampleStorage 2 [sampleWord "a" 2 "2024-03-01";
                             sampleWord "b" 0 "2024-03-02";
                             sampleWord "c" 1 "2024-03-02";
                             sampleWord "d" 4 "2024-03-01"] in
  let result := Quiz.buildDailyWords codeUnitCompare zeroDraws "wrong" st in
  (∀ w, w ∈ result → Word.wrongCount w >= 1)
  ∧ Z.of_nat (length result) ≤ dailyGoalOf st
  ∧ (∀ w, w ∈ result → Word.wrongCount w ≠ 0).
Proof.
  intros st.
  apply (wrong_scope_only_wrong_words codeUnitCompare zeroDraws st).
  vm_compute. discriminate.
Defined.

(** C7.  For a scope other than ['wrong'], a daily goal of at least 2 and
    a pool with unique ids that holds at least 2 words with
    [wrongCount = 0]: at most [dailyGoal - 2] wrong words are selected and
    at least 2 of the returned words have [wrongCount = 0].  The new words
    are taken oldest first: under a collation that is a total preorder, no
    returned new word is newer by [createdAt] than a new word of the pool
    that was left out. *)
Theorem new_word_floor localeCompare rnd categoryId st :
  categoryId ≠ "wrong" →
  2 ≤ dailyGoalOf st →
  NoDup (Word.id <$> scopeWords categoryId st) →
  (2 ≤ length (filter isNew (scopeWords categoryId st)))%nat →
  let pool := scopeWords categoryId st in
  let result := Quiz.buildDailyWords localeCompare rnd categoryId st in
  Z.of_nat (length (filter isWrong result)) ≤ dailyGoalOf st - 2
  ∧ (2 ≤ length (filter isNew result))%nat
  ∧ ((∀ a b, localeCompare a b ≤ 0 ∨ localeCompare b a ≤ 0) →
     (∀ a b c, localeCompare a b ≤ 0 → localeCompare b c ≤ 0 →
               localeCompare a c ≤ 0) →
     ∀ a b, a ∈ result → isNew a → b ∈ pool → isNew b → b ∉ result →
            localeCompare (Word.createdAt a) (Word.createdAt b) ≤ 0).
Proof.
  intros Hc Hd Hids Hnew pool result.
  assert (Hres : result ≡ₚ selectedOf localeCompare (dailyGoalOf st) pool).
  { unfold result.
    by rewrite buildDailyWords_selected, shuffle_Permutation by done. }
  pose proof (length_wrongWordsOf (dailyGoalOf st) pool Hd) as Hww.
  set (n := Z.to_nat (dailyGoalOf st
              - Z.of_nat (length (wrongWordsOf (dailyGoalOf st) pool)))).
  assert (HnewSel : filter isNew result
    ≡ₚ take n (sort (byCreatedAt localeCompare) (filter isNew pool))).
  { rewrite Hres, filter_isNew_selectedOf, newWordsOf_unique_ids by done.
    by rewrite slice_nonneg by lia. }
  split; [|split].
  - rewrite Hres, filter_isWrong_selectedOf. lia.
  - rewrite HnewSel, length_take, length_sort. fold pool in Hnew. lia.
  - intros Htotal Htrans a b Ha Hna Hb Hnb Hout.
    apply (sort_take_drop (byCreatedAt localeCompare))
      with (n := n) (arr := filter isNew pool).
    + intros x y. apply Htotal.
    + intros x y z. apply Htrans.
    + rewrite <-HnewSel. by apply list_elem_of_filter.
    + assert (Hb' : b ∈ sort (byCreatedAt localeCompare) (filter isNew pool)).
      { rewrite sort_Permutation. by apply list_elem_of_filter. }
      rewrite <-(take_drop n) in Hb'.
      apply elem_of_app in Hb' as [Hb'|Hb']; [|done].
      exfalso. apply Hout.
      rewrite <-HnewSel in Hb'. by apply list_elem_of_filter in Hb' as [_ ?].
Qed.

Lemma new_word_floor_witness :
  let st := sampleStorage 3 [sampleWord "a" 2 "2024-03-01";
                             sampleWord "b" 0 "2024-03-04";
                             sampleWord "c" 0 "2024-03-02";
                             sampleWord "d" 0 "2024-03-03";
                             sampleWord "e" 5 "2024-03-01"] in
  let result := Quiz.buildDailyWords codeUnitCompare zeroDraws "all" st in
  (2 ≤ length (filter isNew result))%nat
  ∧ codeUnitCompare "2024-03-02" "2024-03-04" ≤ 0.
Proof.
  intros st.
  destruct (new_word_floor codeUnitCompare zeroDraws "all" st)
    as (_ & Hfloor & Hold).
  - discriminate.
  - vm_compute. discriminate.
  - compute_done.
  - vm_compute. lia.
  - split; [exact Hfloor|].
    apply (Hold codeUnitCompare_total codeUnitCompare_trans
             (sampleWord "c" 0 "2024-03-02") (sampleWord "b" 0 "2024-03-04"));
      try reflexivity; compute_done.
Defined.

(** C7, without unique ids, fails: with a daily goal of 3 and the pool
    x ([wrongCount] 2), x ([wrongCount] 0), y ([wrongCount] 0), one wrong
    word is selected and two words of the pool have [wrongCount = 0], yet
    one word with [wrongCount = 0] is returned: the new word x is left out,
    because its id is the id of the wrong word selected. *)
Lemma new_word_floor_counterexample :
  let st := sampleStorage 3 [sampleWord "x" 2 "2024-03-01";
                             sampleWord "x" 0 "2024-03-02";
                             sampleWord "y" 0 "2024-03-03"] in
  let pool := scopeWords "all" st in
  let result := Quiz.buildDailyWords codeUnitCompare zeroDraws "all" st in
  2 ≤ dailyGoalOf st
  ∧ Z.of_nat (length (filter isWrong result)) ≤ dailyGoalOf st - 2
  ∧ length (filter isNew pool) = 2%nat
  ∧ length (filter isNew result) = 1%nat.
Proof. vm_compute. repeat split; discriminate. Qed.

(** C9.  For a scope other than ['wrong'], every word that [buildDailyWords]
    returns is a word of the pool, and no word is returned more often than
    the pool holds it; so, when no id occurs twice in the pool, no id occurs
    twice in the words returned. *)
Theorem buildDailyWords_no_duplicates localeCompare rnd categoryId st :
  categoryId ≠ "wrong" →
  let pool := scopeWords categoryId st in
  let result := Quiz.buildDailyWords localeCompare rnd categoryId st in
  (∀ w, w ∈ result → w ∈ pool)
  ∧ result ⊆+ pool
  ∧ (NoDup (Word.id <$> pool) → NoDup (Word.id <$> result)).
Proof.
  intros Hc pool result.
  pose proof (buildDailyWords_submseteq localeCompare rnd categoryId st Hc)
    as Hsub.
  split; [|split].
  - intros w Hw. by eapply elem_of_submseteq.
  - exact Hsub.
  - intros Hids. eapply submseteq_NoDup; [|exact Hids].
    by apply fmap_submseteq.
Qed.

Lemma buildDailyWords_no_duplicates_witness :
  let st := sampleStorage 3 [sampleWord "a" 2 "2024-03-01";
                             sampleWord "b" 0 "2024-03-02";
                             sampleWord "c" 0 "2024-03-02";
                             sampleWord "d" 0 "2024-03-01"] in
  let result := Quiz.buildDailyWords codeUnitCompare zeroDraws "all" st in
  (∀ w, w ∈ result → w ∈ scopeWords "all" st)
  ∧ NoDup (Word.id <$> result).
Proof.
  intros st result.
  destruct (buildDailyWords_no_duplicates codeUnitCompare zeroDraws "all" st)
    as (Hin & _ & Hids).
  - discriminate.
  - split; [exact Hin|]. apply Hids. compute_done.
Defined.

(** C9, for every pool, fails: with a daily goal of 4 and a pool of two
    wrong words that share the id x, both are selected, and the id x occurs
    twice in the words returned. *)
Lemma buildDailyWords_no_duplicates_counterexample :
  let st := sampleStorage 4 [sampleWord "x" 2 "2024-03-01";
                             sampleWord "x" 1 "2024-03-02"] in
  let result := Quiz.buildDailyWords codeUnitCompare zeroDraws "all" st in
  Word.id <$> result = ["x"; "x"]
  ∧ ¬ NoDup (Word.id <$> result).
Proof.
  vm_compute. split; [reflexivity|].
  intros Hnd. apply NoDup_cons in Hnd as [Hx _]. apply Hx. by left.
Qed.

(** * The word counters *)

Section CounterFacts.
Implicit Types (st : Storage.t) (ws : list Word.t) (w : Word.t) (id : string).

Lemma findIndex_Some id ws idx w0 :
  Data.findIndex id ws = Some (idx, w0) →
  ws !! idx = Some w0 ∧ Word.id w0 = id.
Proof.
  unfold Data.findIndex. intros (? & ? & _)%list_find_Some. done.
Qed.



Lemma getWordById_None id st :
  Data.getWordById id st = None ↔
  Data.findIndex id (Data.getWords st) = None.
Proof. unfold Data.getWordById, Data.findIndex. apply fmap_None. Qed.

Lemma markCorrect_found id st idx w0 :
  Data.findIndex id (Data.getWords st) = Some (idx, w0) →
  Data.markCorrect id st
  = Storage.setWords
      (<[idx:=afterCorrect (graduationStreakOf st) w0]> (Data.getWords st)) st.
Proof. intros Hfind. unfold Data.markCorrect. by rewrite Hfind. Qed.

Lemma markWrong_found id st idx w0 :
  Data.findIndex id (Data.getWords st) = Some (idx, w0) →
  Data.markWrong id st
  = Storage.setWords (<[idx:=afterWrong w0]> (Data.getWords st)) st.
Proof. intros Hfind. unfold Data.markWrong. by rewrite Hfind. Qed.

Lemma afterCorrect_sameCard g w : sameCard w (afterCorrect g w).
Proof. unfold afterCorrect. case_decide; by repeat split. Qed.

Lemma afterWrong_sameCard w : sameCard w (afterWrong w).
Proof. by repeat split. Qed.





End CounterFacts.



(** * Claims about the counters *)





(** C10.  [markCorrect] and [markWrong] with an id that no word of the
    store has return the store as it is.  With an id that is found, at
    index [idx], they leave the study log, the settings and every word at
    another index as they are, and the word written at [idx] differs from
    the one that was there in its two counters at most. *)
Theorem mark_frame id st :
  (Data.getWordById id st = None →
   Data.markCorrect id st = st ∧ Data.markWrong id st = st)
  ∧ (∀ idx w0 st',
       Data.findIndex id (Data.getWords st) = Some (idx, w0) →
       st' = Data.markCorrect id st ∨ st' = Data.markWrong id st →
       Storage.studyLog st' = Storage.studyLog st
       ∧ Storage.settings st' = Storage.settings st
       ∧ length (Storage.words st') = length (Storage.words st)
       ∧ (∀ j, j ≠ idx → Storage.words st' !! j = Storage.words st !! j)
       ∧ ∃ w1, Storage.words st' !! idx = Some w1 ∧ sameCard w0 w1).
Proof.
  split.
  - intros Hnone%getWordById_None.
    unfold Data.markCorrect, Data.markWrong. by rewrite Hnone.
  - intros idx w0 st' Hfind Hst'.
    pose proof (findIndex_Some _ _ _ _ Hfind) as [Hidx _].
    apply lookup_lt_Some in Hidx.
    destruct Hst' as [-> | ->];
      [rewrite (markCorrect_found _ _ _ _ Hfind)
      |rewrite (markWrong_found _ _ _ _ Hfind)];
      simpl; unfold Data.getWords, Storage.getWords in *;
      (split; [done|]); (split; [done|]);
      (split; [by rewrite length_insert|]);
      (split; [by intros j Hj; rewrite list_lookup_insert_ne|]);
      eexists; (split; [by apply list_lookup_insert_eq|]).
    + apply afterCorrect_sameCard.
    + apply afterWrong_sameCard.
Qed.

(** * The session *)

Section SessionFacts.
Implicit Types (q : Quiz.t) (s : Quiz.Session.t) (st : Storage.t).

Lemma studyLog_recordStudy today count categoryId st st' :
  Storage.studyLog st = Storage.studyLog st' →
  Storage.studyLog (Data.recordStudy today count categoryId st)
  = Storage.studyLog (Data.recordStudy today count categoryId st').
Proof.
  intros Hlog. unfold Data.recordStudy, Data.getStudyLog, Storage.getStudyLog.
  simpl. by rewrite Hlog.
Qed.

Lemma studyLog_markCorrect id st :
  Storage.studyLog (Data.markCorrect id st) = Storage.studyLog st.
Proof. unfold Data.markCorrect. by destruct (Data.findIndex _ _) as [[??]|]. Qed.

Lemma studyLog_markWrong id st :
  Storage.studyLog (Data.markWrong id st) = Storage.studyLog st.
Proof. unfold Data.markWrong. by destruct (Data.findIndex _ _) as [[??]|]. Qed.

(** Answering a card that is there: the session moves on by one card, and
    the study log changes only if that card was the last one. *)
Lemma answer_step s0 k q a :
  answered s0 k q →
  (k < length (Quiz.Session.words s0))%nat →
  answered s0 (S k) (answer a q).2
  ∧ Storage.studyLog (Quiz.storage (answer a q).2)
    = if decide (S k = length (Quiz.Session.words s0))
      then Storage.studyLog
             (Data.recordStudy a.2 (Z.of_nat (S k))
                (Quiz.Session.categoryId s0) (Quiz.storage q))
      else Storage.studyLog (Quiz.storage q).
Proof.
  intros (s & Hs & Hwords & Hcat & Hidx & Hres) Hk.
  destruct (lookup_lt_is_Some_2 (Quiz.Session.words s) k) as [cw Hcw];
    [by rewrite Hwords|].
  assert (Hcur : Quiz.currentWord q = Some cw).
  { unfold Quiz.currentWord. by rewrite Hs, Hidx. }
  destruct a as [[] today]; unfold answer; simpl;
    [unfold Quiz.answerCorrect|unfold Quiz.answerWrong];
    rewrite Hs, Hcur; unfold Quiz._next, Quiz._finishSession; simpl;
    rewrite Hidx, Hwords, length_app, Hres, Hcat; simpl;
    replace (k + 1)%nat with (S k) by lia.
  - split.
    + eexists. split; [done|]. simpl. rewrite length_app, Hres. simpl.
      repeat split; lia.
    + case_bool_decide; case_decide; try lia; simpl.
      * apply studyLog_recordStudy, studyLog_markCorrect.
      * apply studyLog_markCorrect.
  - split.
    + eexists. split; [done|]. simpl. rewrite length_app, Hres. simpl.
      repeat split; lia.
    + case_bool_decide; case_decide; try lia; simpl.
      * apply studyLog_recordStudy, studyLog_markWrong.
      * apply studyLog_markWrong.
Qed.

(** Once every card is answered there is no current card, and an answer
    does nothing. *)
Lemma answer_finished s0 k q a :
  answered s0 k q →
  (length (Quiz.Session.words s0) ≤ k)%nat →
  Quiz.currentWord q = None ∧ answer a q = (None, q).
Proof.
  intros (s & Hs & Hwords & Hcat & Hidx & Hres) Hk.
  assert (Hcur : Quiz.currentWord q = None).
  { unfold Quiz.currentWord. rewrite Hs, Hidx.
    apply lookup_ge_None_2. by rewrite Hwords. }
  split; [done|].
  destruct a as [[] today]; unfold answer; simpl;
    [unfold Quiz.answerCorrect|unfold Quiz.answerWrong]; by rewrite Hs, Hcur.
Qed.

Lemma answerAll_finished s0 k q answers :
  answered s0 k q →
  (length (Quiz.Session.words s0) ≤ k)%nat →
  answerAll answers q = q.
Proof.
  intros Hq Hk. induction answers as [|a answers IH]; [done|].
  unfold answerAll in *. simpl.
  destruct (answer_finished s0 k q a Hq Hk) as [_ ->]. done.
Qed.

(** The study log along a run that starts with [k] cards answered. *)
Lemma answerAll_studyLog s0 k q answers :
  answered s0 k q →
  (k < length (Quiz.Session.words s0))%nat →
  let n := length (Quiz.Session.words s0) in
  ((k + length answers < n)%nat →
   answered s0 (k + length answers) (answerAll answers q)
   ∧ Storage.studyLog (Quiz.storage (answerAll answers q))
     = Storage.studyLog (Quiz.storage q))
  ∧ (∀ a, answers !! (n - 1 - k)%nat = Some a →
     answered s0 n (answerAll answers q)
     ∧ Storage.studyLog (Quiz.storage (answerAll answers q))
       = Storage.studyLog
           (Data.recordStudy a.2 (Z.of_nat n)
              (Quiz.Session.categoryId s0) (Quiz.storage q))).
Proof.
  intros Hq Hk n. revert k q Hq Hk.
  induction answers as [|a answers IH]; intros k q Hq Hk.
  - split; [|done]. intros _. simpl. by rewrite Nat.add_0_r.
  - destruct (answer_step s0 k q a Hq Hk) as [Hq' Hlog'].
    unfold answerAll in *. simpl.
    destruct (decide (S k = n)) as [Hlast|Hmore].
    + rewrite decide_True in Hlog' by done.
      split; [simpl; lia|].
      replace (n - 1 - k)%nat with 0%nat by lia. simpl. intros ? [= <-].
      fold (answerAll answers (answer a q).2).
      rewrite (answerAll_finished s0 (S k)) by (done || lia).
      rewrite Hlast in Hq', Hlog'. done.
    + rewrite decide_False in Hlog' by done.
      destruct (IH (S k) (answer a q).2 Hq' ltac:(lia)) as [IH1 IH2].
      split.
      * simpl. intros Hlen.
        destruct IH1 as [IHa IHlog]; [lia|].
        replace (k + S (length answers))%nat
          with (S k + length answers)%nat by lia.
        split; [done|]. by rewrite IHlog.
      * replace (n - 1 - k)%nat with (S (n - 1 - S k)) by lia. simpl.
        intros a' Ha'. destruct (IH2 a' Ha') as [IHa IHlog].
        split; [done|]. rewrite IHlog.
        by apply studyLog_recordStudy.
Qed.

Lemma startSession_Ok localeCompare rnd now categoryId q0 s q :
  Quiz.startSession localeCompare rnd now categoryId q0 = (Quiz.Ok s, q) →
  s = Quiz.Session.mk categoryId
        (Quiz.buildDailyWords localeCompare rnd categoryId (Quiz.storage q0))
        0 [] false now
  ∧ q = Quiz.mk (Quiz.storage q0) (Some s)
  ∧ Quiz.Session.words s ≠ [].
Proof.
  unfold Quiz.startSession. case_decide as Hlen; [done|].
  intros [= <- <-]. repeat split. simpl. intros Hnil.
  by rewrite Hnil in Hlen.
Qed.
End SessionFacts.

(** * Claims about the session *)

(** C5.  A session that [startSession] has just created, on [n] cards.
    While fewer than [n] answers were given the study log is as it was.
    From the [n]-th answer on, whatever follows, the log is the one that a
    single [recordStudy] with [count = n] (the number of answers recorded,
    correct or wrong) and the scope of the session writes on the day of the
    [n]-th answer; the session then stands at index [n] with [n] results,
    and an answer returns nothing and changes nothing.  [recordStudy] adds
    [count] to the entry of the day and keeps the category id that entry
    has (category ids are never empty); without an entry it writes [count]
    and the scope. *)
Theorem one_commit_per_session localeCompare rnd now categoryId q0 s q answers :
  Quiz.startSession localeCompare rnd now categoryId q0 = (Quiz.Ok s, q) →
  let n := length (Quiz.Session.words s) in
  let q' := answerAll answers q in
  ((length answers < n)%nat →
   Storage.studyLog (Quiz.storage q') = Storage.studyLog (Quiz.storage q0))
  ∧ (∀ a, answers !! (n - 1)%nat = Some a →
       Storage.studyLog (Quiz.storage q')
       = Storage.studyLog
           (Data.recordStudy a.2 (Z.of_nat n) categoryId (Quiz.storage q0))
       ∧ (∃ s', Quiz.session q' = Some s'
                ∧ Quiz.Session.currentIndex s' = n
                ∧ length (Quiz.Session.results s') = n)
       ∧ Quiz.currentWord q' = None
       ∧ ∀ a', answer a' q' = (None, q'))
  ∧ (∀ today count st e,
       Storage.studyLog st !! today = Some e →
       StudyLogEntry.categoryId e ≠ "" →
       Storage.studyLog (Data.recordStudy today count categoryId st)
       = <[today := StudyLogEntry.mk (StudyLogEntry.count e + count)
                      (StudyLogEntry.categoryId e)]> (Storage.studyLog st))
  ∧ (∀ today count st,
       Storage.studyLog st !! today = None →
       Storage.studyLog (Data.recordStudy today count categoryId st)
       = <[today := StudyLogEntry.mk count categoryId]> (Storage.studyLog st)).
Proof.
  intros (Hs & Hq & Hwords)%startSession_Ok n q'.
  assert (Hn : (0 < n)%nat).
  { unfold n. destruct (Quiz.Session.words s); [done|simpl; lia]. }
  assert (Hfresh : answered s 0 q).
  { exists s. rewrite Hq. simpl. by rewrite Hs. }
  assert (Hcat : Quiz.Session.categoryId s = categoryId) by by rewrite Hs.
  assert (Hst : Quiz.storage q = Quiz.storage q0) by by rewrite Hq.
  destruct (answerAll_studyLog s 0 q answers Hfresh Hn) as [Hbefore Hafter].
  fold n in Hbefore, Hafter. fold q' in Hbefore, Hafter.
  split; [|split; [|split]].
  - intros Hlen. destruct Hbefore as [_ ->]; [lia|]. by rewrite Hst.
  - intros a Ha. rewrite Nat.sub_0_r in Hafter.
    destruct (Hafter a Ha) as [Hdone Hlog].
    split; [by rewrite Hlog, Hcat, Hst|].
    split; [destruct Hdone as (s' & ? & _ & _ & ? & ?); by exists s'|].
    split; [|intros a']; by eapply answer_finished.
  - intros today count st e He Hne.
    unfold Data.recordStudy, Data.getStudyLog, Storage.getStudyLog. simpl.
    rewrite He. simpl. unfold Data.orElse. by rewrite decide_False.
  - intros today count st Hnone.
    unfold Data.recordStudy, Data.getStudyLog, Storage.getStudyLog. simpl.
    rewrite Hnone. simpl. unfold Data.orElse. by case_decide.
Qed.

Lemma one_commit_per_session_witness :
  let q0 := Quiz.mk (sampleStorage 2 [sampleWord "a" 0 "2024-03-01";
                                       sampleWord "b" 0 "2024-03-02"]) None in
  let s := Quiz.Session.mk "all"
             (Quiz.buildDailyWords codeUnitCompare zeroDraws "all"
                (Quiz.storage q0)) 0 [] false "2024-03-05T09:00:00.000Z" in
  let q := Quiz.mk (Quiz.storage q0) (Some s) in
  let answers := [(true, "2024-03-05"); (false, "2024-03-05");
                  (true, "2024-03-06")] in
  Storage.studyLog (Quiz.storage (answerAll answers q))
  = Storage.studyLog
      (Data.recordStudy "2024-03-05" 2 "all" (Quiz.storage q0)).
Proof.
  intros q0 s q answers.
  destruct (one_commit_per_session codeUnitCompare zeroDraws
              "2024-03-05T09:00:00.000Z" "all" q0 s q answers)
    as (_ & Hcommit & _).
  - reflexivity.
  - destruct (Hcommit (false, "2024-03-05")) as [Hlog _]; [reflexivity|].
    exact Hlog.
Defined.

(** C8.  [startSession] fails exactly when [buildDailyWords] returns no
    word, with the message that asks to register words first, and leaves
    the state as it is; otherwise the session it installs has
    [currentIndex = 0], no result and [isFlipped = false].  Without a
    session, [currentWord], [flipCard], [answerCorrect] and [answerWrong]
    return nothing and leave the state as it is. *)
Theorem startSession_and_no_session localeCompare rnd now today categoryId q :
  let words :=
    Quiz.buildDailyWords localeCompare rnd categoryId (Quiz.storage q) in
  let result := Quiz.startSession localeCompare rnd now categoryId q in
  ((∃ error, result.1 = Quiz.Error error) ↔ words = [])
  ∧ (words = [] → result = (Quiz.Error Quiz.emptyPoolMessage, q))
  ∧ (words ≠ [] →
     ∃ s, result = (Quiz.Ok s, Quiz.mk (Quiz.storage q) (Some s))
          ∧ Quiz.Session.words s = words
          ∧ Quiz.Session.categoryId s = categoryId
          ∧ Quiz.Session.currentIndex s = 0%nat
          ∧ Quiz.Session.results s = []
          ∧ Quiz.Session.isFlipped s = false)
  ∧ (Quiz.session q = None →
     Quiz.currentWord q = None
     ∧ Quiz.flipCard q = (None, q)
     ∧ Quiz.answerCorrect today q = (None, q)
     ∧ Quiz.answerWrong today q = (None, q)).
Proof.
  intros words result. unfold result, Quiz.startSession. fold words.
  split; [|split; [|split]].
  - case_decide as Hlen; simpl.
    + split; [intros _; by apply length_zero_iff_nil|eauto].
    + split; [by intros [? ?]|]. intros Hnil. by rewrite Hnil in Hlen.
  - intros Hnil. by rewrite Hnil.
  - intros Hne. rewrite decide_False; [by eexists|].
    by intros ?%length_zero_iff_nil.
  - intros Hnone.
    unfold Quiz.currentWord, Quiz.flipCard, Quiz.answerCorrect,
      Quiz.answerWrong. by rewrite Hnone.
Qed.

(** * The records of a run *)

Lemma zip_with_snoc {A B C} (f : A → B → C) (l : list A) (k : list B) x y :
  l !! length k = Some x →
  zip_with f l (k ++ [y]) = zip_with f l k ++ [f x y].
Proof.
  revert k. induction l as [|z l IH]; intros [|b k] Hx; simplify_eq/=; try done.
  - by destruct l.
  - f_equal. by apply IH.
Qed.

Lemma filter_zip_with_resultOf (b : bool) (ws : list Word.t)
    (given : list (bool * string)) :
  (length given ≤ length ws)%nat →
  length (filter (λ r, Quiz.correct r = b) (zip_with resultOf ws given))
  = length (filter (λ a, a.1 = b) given).
Proof.
  revert given. induction ws as [|w ws IH]; intros [|a given] Hlen;
    simpl in *; try done; [lia|].
  rewrite !filter_cons. simpl.
  case_decide; simpl; rewrite IH by lia; done.
Qed.

Section RecordFacts.
Implicit Types (q : Quiz.t) (s : Quiz.Session.t).

Lemma recorded_answered s0 given q :
  recorded s0 given q →
  (length given ≤ length (Quiz.Session.words s0))%nat →
  answered s0 (length given) q.
Proof.
  intros (s & Hs & Hwords & Hcat & Hidx & Hres) Hlen.
  exists s. repeat split; try done.
  rewrite Hres, length_zip_with. lia.
Qed.

Lemma answer_records s0 given q a :
  recorded s0 given q →
  (length given < length (Quiz.Session.words s0))%nat →
  recorded s0 (given ++ [a]) (answer a q).2.
Proof.
  intros (s & Hs & Hwords & Hcat & Hidx & Hres) Hk.
  destruct (lookup_lt_is_Some_2 (Quiz.Session.words s0) (length given))
    as [cw Hcw]; [done|].
  assert (Hcur : Quiz.currentWord q = Some cw).
  { unfold Quiz.currentWord. by rewrite Hs, Hidx, Hwords. }
  destruct a as [[] today]; unfold answer; simpl;
    [unfold Quiz.answerCorrect|unfold Quiz.answerWrong];
    rewrite Hs, Hcur; unfold Quiz._next; simpl;
    (eexists; split; [done|]); simpl;
    rewrite Hidx, Hres, length_app, (zip_with_snoc _ _ _ cw) by done;
    simpl; repeat split; try done; lia.
Qed.

Lemma answerAll_recorded s0 given q answers :
  recorded s0 given q →
  (length given ≤ length (Quiz.Session.words s0))%nat →
  recorded s0 (take (length (Quiz.Session.words s0)) (given ++ answers))
    (answerAll answers q).
Proof.
  revert given q. induction answers as [|a answers IH]; intros given q Hq Hlen.
  - simpl. by rewrite app_nil_r, take_ge.
  - unfold answerAll in *. simpl.
    destruct (decide (length given < length (Quiz.Session.words s0))%nat)
      as [Hlt|Hge].
    + replace (given ++ a :: answers) with ((given ++ [a]) ++ answers)
        by by rewrite <-app_assoc.
      apply IH; [by apply answer_records|]. rewrite length_app. simpl. lia.
    + pose proof (recorded_answered _ _ _ Hq Hlen) as Hans.
      destruct (answer_finished s0 _ q a Hans ltac:(lia)) as [_ ->]. simpl.
      fold (answerAll answers q).
      rewrite (answerAll_finished s0 (length given)) by (done || lia).
      rewrite take_app_le, take_ge by lia. done.
Qed.

Lemma startSession_recorded localeCompare rnd now categoryId q0 s q :
  Quiz.startSession localeCompare rnd now categoryId q0 = (Quiz.Ok s, q) →
  recorded s [] q.
Proof.
  intros (Hs & Hq & _)%startSession_Ok.
  exists s. rewrite Hq. simpl. rewrite Hs. simpl. repeat split.
  by destruct (Quiz.buildDailyWords _ _ _ _).
Qed.
End RecordFacts.

(** * Further properties of quiz.js *)

(** X1.  [shuffle] returns a rearrangement of its argument, whatever the
    random source draws: the same elements with the same multiplicities,
    hence the same length. *)
Theorem shuffle_rearranges {A} (rnd : nat → nat) (arr : list A) :
  Quiz.shuffle rnd arr ≡ₚ arr
  ∧ length (Quiz.shuffle rnd arr) = length arr.
Proof.
  split; [apply shuffle_Permutation|]. by rewrite shuffle_Permutation.
Qed.

(** X2.  For the scope ['wrong'] and a daily goal of at least 1, the number
    of words returned is the smaller of the daily goal and the number of
    words with [wrongCount >= 1]; and [startSession] fails exactly when
    no word of the store has [wrongCount >= 1]. *)
Theorem wrong_scope_size localeCompare rnd now q :
  1 ≤ dailyGoalOf (Quiz.storage q) →
  let st := Quiz.storage q in
  let W := length (filter isWrong (Data.getWords st)) in
  length (Quiz.buildDailyWords localeCompare rnd "wrong" st)
  = (Z.to_nat (dailyGoalOf st) `min` W)%nat
  ∧ ((Quiz.startSession localeCompare rnd now "wrong" q).1
     = Quiz.Error Quiz.emptyPoolMessage
     ↔ Forall (λ w, ¬ isWrong w) (Data.getWords st)).
Proof.
  intros Hd st W. change (1 ≤ dailyGoalOf st) in Hd.
  assert (Hlen : length (Quiz.buildDailyWords localeCompare rnd "wrong" st)
                 = (Z.to_nat (dailyGoalOf st) `min` W)%nat).
  { rewrite buildDailyWords_wrong, length_slice_nonneg by lia.
    rewrite shuffle_Permutation. unfold Data.getWrongWords.
    by rewrite length_sort. }
  split; [done|].
  unfold Quiz.startSession. fold st. rewrite Hlen.
  assert (HW : W = 0%nat ↔ Forall (λ w, ¬ isWrong w) (Data.getWords st)).
  { unfold W. rewrite length_zero_iff_nil. split.
    - intros Hnil. apply Forall_forall. intros w Hw Hwrong.
      by eapply filter_nil_not_elem_of.
    - intros Hall. apply filter_none. by apply Forall_forall. }
  rewrite <-HW. case_decide; simpl; split; try done; lia.
Qed.

Lemma wrong_scope_size_witness :
  let q := Quiz.mk (sampleStorage 2 [sampleWord "a" 2 "2024-03-01";
                                      sampleWord "b" 0 "2024-03-02";
                                      sampleWord "c" 1 "2024-03-02";
                                      sampleWord "d" 4 "2024-03-01"]) None in
  length (Quiz.buildDailyWords codeUnitCompare zeroDraws "wrong"
            (Quiz.storage q)) = 2%nat.
Proof.
  intros q.
  destruct (wrong_scope_size codeUnitCompare zeroDraws "now" q) as [Hlen _].
  - vm_compute. discriminate.
  - exact Hlen.
Defined.

(** X3.  For a scope other than ['wrong'], a daily goal of at least 2 and a
    pool with unique ids, [buildDailyWords] returns no word exactly when the
    pool has no word with [wrongCount = 0] and either no word with
    [wrongCount >= 1] or a daily goal of 2: with a daily goal of 2, a pool
    of wrong words only gives nothing to study. *)
Theorem nothing_to_study localeCompare rnd categoryId st :
  categoryId ≠ "wrong" →
  2 ≤ dailyGoalOf st →
  NoDup (Word.id <$> scopeWords categoryId st) →
  let pool := scopeWords categoryId st in
  Quiz.buildDailyWords localeCompare rnd categoryId st = []
  ↔ filter isNew pool = []
    ∧ (filter isWrong pool = [] ∨ dailyGoalOf st = 2).
Proof.
  intros Hc Hd Hids pool.
  rewrite <-!length_zero_iff_nil.
  rewrite buildDailyWords_selected, shuffle_Permutation by done.
  rewrite length_selectedOf, length_wrongWordsOf by done. fold pool. lia.
Qed.

Lemma nothing_to_study_witness :
  let st := sampleStorage 2 [sampleWord "a" 2 "2024-03-01";
                             sampleWord "b" 1 "2024-03-02"] in
  Quiz.buildDailyWords codeUnitCompare zeroDraws "all" st = [].
Proof.
  intros st.
  apply (nothing_to_study codeUnitCompare zeroDraws "all" st).
  - discriminate.
  - vm_compute. discriminate.
  - compute_done.
  - split; [reflexivity|]. by right.
Defined.

(** X4.  Along a session that [startSession] has just created on [n]
    cards, after any sequence of answers [getProgress] reports
    [total = n] and [current] = the number of answers given, capped at [n];
    so [current] never exceeds [total] and reaches it exactly when at least
    [n] answers were given. *)
Theorem progress_of_a_run localeCompare rnd roundedPercent now categoryId
    q0 s q answers :
  Quiz.startSession localeCompare rnd now categoryId q0 = (Quiz.Ok s, q) →
  let n := length (Quiz.Session.words s) in
  let p := QuizStatus.getProgress roundedPercent (answerAll answers q) in
  QuizStatus.Progress.total p = n
  ∧ QuizStatus.Progress.current p = (length answers `min` n)%nat
  ∧ (QuizStatus.Progress.current p = QuizStatus.Progress.total p
     ↔ (n ≤ length answers)%nat).
Proof.
  intros Hstart n p.
  pose proof (answerAll_recorded s [] q answers
                (startSession_recorded _ _ _ _ _ _ _ Hstart)
                ltac:(simpl; lia)) as (s' & Hs' & Hwords & _ & Hidx & _).
  simpl in Hidx. rewrite length_take in Hidx. fold n in Hidx.
  unfold p, QuizStatus.getProgress. rewrite Hs'. simpl.
  rewrite Hwords, Hidx. fold n. repeat split; lia.
Qed.

Lemma progress_of_a_run_witness :
  let q0 := Quiz.mk (sampleStorage 2 [sampleWord "a" 0 "2024-03-01";
                                       sampleWord "b" 0 "2024-03-02"]) None in
  let s := Quiz.Session.mk "all"
             (Quiz.buildDailyWords codeUnitCompare zeroDraws "all"
                (Quiz.storage q0)) 0 [] false "2024-03-05T09:00:00.000Z" in
  let q := Quiz.mk (Quiz.storage q0) (Some s) in
  QuizStatus.Progress.current
    (QuizStatus.getProgress (λ _ _, 0) (answerAll [(true, "2024-03-05")] q))
  = 1%nat.
Proof.
  intros q0 s q.
  destruct (progress_of_a_run codeUnitCompare zeroDraws (λ _ _, 0)
              "2024-03-05T09:00:00.000Z" "all" q0 s q [(true, "2024-03-05")])
    as (_ & Hcur & _).
  - reflexivity.
  - exact Hcur.
Defined.

(** X5.  After any sequence of answers in a session that [startSession]
    has just created, [getSessionResult] counts the answers recorded (those
    given to the cards, one each): [total] of them, of which [correct] were
    correct and [wrong] were wrong, under the scope of the session.  Every
    word it lists as wrong has the id of a card that was answered wrong,
    and it lists no more words than wrong answers. *)
Theorem session_result_of_a_run localeCompare rnd now categoryId
    q0 s q answers :
  Quiz.startSession localeCompare rnd now categoryId q0 = (Quiz.Ok s, q) →
  let given := take (length (Quiz.Session.words s)) answers in
  ∃ r, QuizStatus.getSessionResult (answerAll answers q) = Some r
       ∧ QuizStatus.SessionResult.total r = length given
       ∧ QuizStatus.SessionResult.correct r
         = length (filter (λ a, a.1 = true) given)
       ∧ QuizStatus.SessionResult.wrong r
         = Z.of_nat (length (filter (λ a, a.1 = false) given))
       ∧ QuizStatus.SessionResult.categoryId r = categoryId
       ∧ (length (QuizStatus.SessionResult.wrongWords r)
          ≤ length (filter (λ a, a.1 = false) given))%nat
       ∧ ∀ w, w ∈ QuizStatus.SessionResult.wrongWords r →
              ∃ i card a, Quiz.Session.words s !! i = Some card
                          ∧ given !! i = Some a
                          ∧ a.1 = false
                          ∧ Word.id w = Word.id card.
Proof.
  intros Hstart given.
  pose proof (answerAll_recorded s [] q answers
                (startSession_recorded _ _ _ _ _ _ _ Hstart)
                ltac:(simpl; lia)) as (s' & Hs' & Hwords & Hcat & Hidx & Hres).
  simpl in Hres. fold given in Hres.
  apply startSession_Ok in Hstart as (Hs & _ & _).
  assert (Hlen : (length given ≤ length (Quiz.Session.words s))%nat).
  { unfold given. rewrite length_take. lia. }
  assert (Hsplit : (length given
    = length (filter (λ a, a.1 = true) given)
      + length (filter (λ a, a.1 = false) given))%nat).
  { clear. induction given as [|[[] ?] given IH]; [done|..];
      rewrite !filter_cons; simpl; lia. }
  unfold QuizStatus.getSessionResult. rewrite Hs'. eexists. split; [done|].
  simpl. rewrite Hres, length_zip_with, !filter_zip_with_resultOf by done.
  split; [lia|]. split; [done|]. split; [lia|].
  split; [by rewrite Hcat, Hs|]. split.
  - rewrite <-(filter_zip_with_resultOf false (Quiz.Session.words s)) by done.
    generalize (filter (λ r, Quiz.correct r = false)
                  (zip_with resultOf (Quiz.Session.words s) given)).
    intros l. induction l as [|x l IH]; csimpl; [done|].
    destruct (Data.getWordById _ _); simpl; lia.
  - intros w (r & [Hfalse Hr]%list_elem_of_filter & Hfind)%list_elem_of_omap.
    apply list_elem_of_lookup in Hr as [i Hr].
    apply lookup_zip_with_Some in Hr as (card & a & -> & Hcard & Ha).
    simpl in Hfalse, Hfind. unfold Data.getWordById in Hfind.
    apply fmap_Some in Hfind as ([k w'] & (_ & Hid & _)%list_find_Some & ->).
    by exists i, card, a.
Qed.

Lemma session_result_of_a_run_witness :
  let q0 := Quiz.mk (sampleStorage 2 [sampleWord "a" 0 "2024-03-01";
                                       sampleWord "b" 0 "2024-03-02"]) None in
  let s := Quiz.Session.mk "all"
             (Quiz.buildDailyWords codeUnitCompare zeroDraws "all"
                (Quiz.storage q0)) 0 [] false "2024-03-05T09:00:00.000Z" in
  let q := Quiz.mk (Quiz.storage q0) (Some s) in
  let answers := [(true, "2024-03-05"); (false, "2024-03-05");
                  (true, "2024-03-06")] in
  ∃ r, QuizStatus.getSessionResult (answerAll answers q) = Some r
       ∧ QuizStatus.SessionResult.total r = 2%nat
       ∧ QuizStatus.SessionResult.correct r = 1%nat.
Proof.
  intros q0 s q answers.
  destruct (session_result_of_a_run codeUnitCompare zeroDraws
              "2024-03-05T09:00:00.000Z" "all" q0 s q answers)
    as (r & Hr & Htotal & Hcorrect & _).
  - reflexivity.
  - exists r. split; [exact Hr|]. split; [exact Htotal|exact Hcorrect].
Defined.

(** X6.  [flipCard] is a pure toggle: it returns the new value of
    [isFlipped] and changes nothing else, neither the current card nor the
    storage; two flips in a row give back the state they started from; and
    answering the current card turns the next card face up again
    ([isFlipped = false]). *)
Theorem flipCard_toggles q :
  (Quiz.flipCard (Quiz.flipCard q).2).2 = q
  ∧ Quiz.currentWord (Quiz.flipCard q).2 = Quiz.currentWord q
  ∧ Quiz.storage (Quiz.flipCard q).2 = Quiz.storage q
  ∧ (Quiz.flipCard q).1
    = match Quiz.session q with
      | Some _ => Some (negb (QuizStatus.isFlipped q))
      | None => None
      end
  ∧ (∀ r, (Quiz.flipCard q).1 = Some r →
          QuizStatus.isFlipped (Quiz.flipCard q).2 = r)
  ∧ (∀ a, is_Some (Quiz.currentWord q) →
          QuizStatus.isFlipped (answer a q).2 = false).
Proof.
  destruct q as [st [s|]]; unfold Quiz.flipCard, Quiz.currentWord,
    QuizStatus.isFlipped; simpl.
  - split; [by destruct s as [? ? ? ? [] ?]|].
    do 3 (split; [done|]). split; [by intros r [= <-]|].
    intros [[] today] [cw Hcw]; unfold answer, Quiz.answerCorrect,
      Quiz.answerWrong, Quiz.currentWord; simpl; by rewrite Hcw.
  - do 5 (split; [done|]). by intros a [? ?].
Qed.

(** X7.  A session left before its last card commits nothing: if fewer
    answers were given than the session has cards and the session is then
    cleared, the study log is the one from before the session, and answers
    given afterwards return nothing and change nothing. *)
Theorem abandoned_session_commits_nothing localeCompare rnd now categoryId
    q0 s q answers later :
  Quiz.startSession localeCompare rnd now categoryId q0 = (Quiz.Ok s, q) →
  (length answers < length (Quiz.Session.words s))%nat →
  let q' := Quiz.clearSession (answerAll answers q) in
  Storage.studyLog (Quiz.storage q') = Storage.studyLog (Quiz.storage q0)
  ∧ Quiz.currentWord q' = None
  ∧ answerAll later q' = q'.
Proof.
  intros Hstart Hlen q'.
  pose proof (startSession_Ok _ _ _ _ _ _ _ Hstart) as (Hs & Hq & Hne).
  assert (Hfresh : answered s 0 q).
  { exists s. rewrite Hq. simpl. by rewrite Hs. }
  destruct (answerAll_studyLog s 0 q answers Hfresh ltac:(lia))
    as [Hbefore _].
  destruct Hbefore as [_ Hlog]; [simpl; lia|].
  split; [|split].
  - unfold q'. simpl. rewrite Hlog. by rewrite Hq.
  - done.
  - induction later as [|[[] today] later IH]; [done|..]; exact IH.
Qed.

Lemma abandoned_session_commits_nothing_witness :
  let q0 := Quiz.mk (sampleStorage 2 [sampleWord "a" 0 "2024-03-01";
                                       sampleWord "b" 0 "2024-03-02"]) None in
  let s := Quiz.Session.mk "all"
             (Quiz.buildDailyWords codeUnitCompare zeroDraws "all"
                (Quiz.storage q0)) 0 [] false "2024-03-05T09:00:00.000Z" in
  let q := Quiz.mk (Quiz.storage q0) (Some s) in
  Storage.studyLog
    (Quiz.storage (Quiz.clearSession (answerAll [(true, "2024-03-05")] q)))
  = Storage.studyLog (Quiz.storage q0).
Proof.
  intros q0 s q.
  destruct (abandoned_session_commits_nothing codeUnitCompare zeroDraws
              "2024-03-05T09:00:00.000Z" "all" q0 s q
              [(true, "2024-03-05")] []) as (Hlog & _).
  - reflexivity.
  - vm_compute. lia.
  - exact Hlog.
Defined.

(** X8.  [getWrongWords] lists exactly the words with [wrongCount >= 1],
    each as often as the store has it, the most missed first; words missed
    equally often keep the order they have in the store. *)
Theorem getWrongWords_most_missed_first st :
  Data.getWrongWords st ≡ₚ filter isWrong (Data.getWords st)
  ∧ StronglySorted (λ a b, Word.wrongCount b ≤ Word.wrongCount a)
      (Data.getWrongWords st)
  ∧ ∀ k, filter (λ w, Word.wrongCount w = k) (Data.getWrongWords st)
         = filter (λ w, Word.wrongCount w = k)
             (filter isWrong (Data.getWords st)).
Proof.
  change (Data.getWrongWords st) with (wrongCandidates (Data.getWords st)).
  split; [apply wrongCandidates_Permutation|].
  split; [apply wrongCandidates_descending|].
  intros k. apply wrongCandidates_stable.
Qed.

(** * Every order is a possible outcome of the shuffle *)

Lemma length_swap {A} (i j : nat) (arr : list A) :
  length (swap i j arr) = length arr.
Proof.
  unfold swap. destruct (arr !! i), (arr !! j); try done.
  by rewrite !length_insert.
Qed.

Lemma swap_app_l {A} (i j : nat) (arr rest : list A) :
  (i < length arr)%nat → (j < length arr)%nat →
  swap i j (arr ++ rest) = swap i j arr ++ rest.
Proof.
  intros Hi Hj. unfold swap. rewrite !lookup_app_l by done.
  destruct (lookup_lt_is_Some_2 arr i Hi) as [x ->].
  destruct (lookup_lt_is_Some_2 arr j Hj) as [y ->].
  rewrite insert_app_l by done.
  rewrite insert_app_l by (by rewrite length_insert). done.
Qed.

Lemma shuffleLoop_S {A} rnd i (arr : list A) :
  Quiz.shuffleLoop rnd (S i) arr
  = Quiz.shuffleLoop rnd i (swap (S i) (rnd (S i) `mod` (S i + 1))%nat arr).
Proof. done. Qed.

(** The loop from index [i] down leaves what lies behind index [i] alone. *)
Lemma shuffleLoop_app_l {A} rnd i (arr rest : list A) :
  (i < length arr)%nat →
  Quiz.shuffleLoop rnd i (arr ++ rest) = Quiz.shuffleLoop rnd i arr ++ rest.
Proof.
  revert arr. induction i as [|i IH]; intros arr Hi; simpl; [done|].
  assert (rnd (S i) `mod` (S i + 1) < S i + 1)%nat
    by (apply Nat.mod_upper_bound; lia).
  rewrite swap_app_l by lia. apply IH. rewrite length_swap. lia.
Qed.

(** It reads the random source at the indices it visits only. *)
Lemma shuffleLoop_ext {A} rnd rnd' i (arr : list A) :
  (∀ k, (k ≤ i)%nat → rnd k = rnd' k) →
  Quiz.shuffleLoop rnd i arr = Quiz.shuffleLoop rnd' i arr.
Proof.
  revert arr. induction i as [|i IH]; intros arr Hrnd; simpl; [done|].
  rewrite (Hrnd (S i)) by lia. apply IH. intros k Hk. apply Hrnd. lia.
Qed.

Lemma shuffleLoop_reaches {A} (m : nat) (arr target : list A) :
  length arr = S m →
  target ≡ₚ arr →
  ∃ rnd, Quiz.shuffleLoop rnd m arr = target.
Proof.
  revert arr target. induction m as [|m IH]; intros arr target Hlen Hperm.
  - exists (λ _, 0%nat). simpl.
    destruct arr as [|x [|??]]; simplify_eq/=.
    symmetry. by apply Permutation_singleton_r.
  - assert (Htl : length target = S (S m)) by by rewrite Hperm.
    destruct (lookup_lt_is_Some_2 target (S m)) as [x Hx]; [lia|].
    assert (Htarget : target = take (S m) target ++ [x]).
    { rewrite <-(take_S_r _ _ _ Hx). by rewrite take_ge by lia. }
    assert (x ∈ arr) as [j Hj]%list_elem_of_lookup.
    { rewrite <-Hperm. by eapply list_elem_of_lookup_2. }
    pose proof (lookup_lt_Some _ _ _ Hj) as Hjlt.
    destruct (lookup_lt_is_Some_2 arr (S m)) as [y Hy]; [lia|].
    set (arr' := swap (S m) j arr).
    assert (Hlast : arr' !! S m = Some x).
    { unfold arr', swap. rewrite Hy, Hj.
      destruct (decide (j = S m)) as [->|Hne].
      - rewrite list_lookup_insert_eq by (rewrite length_insert; lia).
        congruence.
      - rewrite list_lookup_insert_ne by done.
        by rewrite list_lookup_insert_eq by lia. }
    assert (Hlen' : length arr' = S (S m)) by (unfold arr'; by rewrite length_swap).
    assert (Harr' : arr' = take (S m) arr' ++ [x]).
    { rewrite <-(take_S_r _ _ _ Hlast). by rewrite take_ge by lia. }
    destruct (IH (take (S m) arr') (take (S m) target)) as [rnd' Hrnd'].
    { rewrite length_take. lia. }
    { apply (Permutation_app_inv_r [x]).
      rewrite <-Htarget, <-Harr'. unfold arr'.
      by rewrite swap_Permutation. }
    exists (λ k, if decide (k = S m) then j else rnd' k).
    rewrite shuffleLoop_S, decide_True by done.
    rewrite Nat.mod_small by lia. fold arr'.
    rewrite Harr', shuffleLoop_app_l by (rewrite length_take; lia).
    rewrite Htarget. f_equal. rewrite <-Hrnd'.
    apply shuffleLoop_ext. intros k Hk. by rewrite decide_False by lia.
Qed.

(** X9.  Every rearrangement of an array is an outcome of [shuffle]: for
    each one there are draws of the random source under which [shuffle]
    returns it. *)
Theorem shuffle_reaches_every_order {A} (arr target : list A) :
  target ≡ₚ arr →
  ∃ rnd, Quiz.shuffle rnd arr = target.
Proof.
  intros Hperm. unfold Quiz.shuffle.
  destruct arr as [|x arr].
  - exists (λ _, 0%nat). simpl. symmetry. by apply Permutation_nil_r.
  - replace (length (x :: arr) - 1)%nat with (length arr) by (simpl; lia).
    by apply shuffleLoop_reaches.
Qed.

Lemma shuffle_reaches_every_order_witness :
  ∃ rnd, Quiz.shuffle rnd [1; 2; 3] = [3; 1; 2].
Proof.
  apply (shuffle_reaches_every_order [1; 2; 3] [3; 1; 2]).
  apply (bool_decide_unpack _). vm_compute. exact I.
Defined.

(** * Further properties of data.js *)

Implicit Types (trim : string → string).

(** X10.  [addCategory] fails, and leaves the store as it is, exactly when
    the trimmed name is empty or is the name of a category; otherwise it
    appends one category, not a default one, under the trimmed name, and
    touches nothing else.  It never gives two categories the same name. *)
Theorem addCategory_spec trim newId today name (s : Store.t) :
  let r := Crud.addCategory trim newId today name s in
  ((∃ e, r.1 = Crud.Failed e)
   ↔ trim name = "" ∨ trim name ∈ Category.name <$> Crud.getCategories s)
  ∧ (∀ e, r.1 = Crud.Failed e → r.2 = s)
  ∧ (∀ c, r.1 = Crud.Ok c →
       c = Category.mk newId (trim name) false today
       ∧ Crud.getCategories r.2 = Crud.getCategories s ++ [c]
       ∧ Store.storage r.2 = Store.storage s)
  ∧ (NoDup (Category.name <$> Crud.getCategories s) →
     NoDup (Category.name <$> Crud.getCategories r.2)).
Proof.
  intros r. unfold r, Crud.addCategory.
  assert (Hex : Exists (λ c, Category.name c = trim name) (Crud.getCategories s)
                ↔ trim name ∈ Category.name <$> Crud.getCategories s).
  { rewrite Exists_exists, list_elem_of_fmap. split.
    - intros (c & ? & ?). by exists c.
    - intros (c & ? & ?). by exists c. }
  case_decide as Hempty; simpl.
  { split; [split; eauto|]. repeat split; try done. }
  case_decide as Hdup; simpl.
  { rewrite Hex in Hdup. split; [split; eauto|]. repeat split; try done. }
  rewrite Hex in Hdup. split.
  { split; [by intros [? ?]|]. by intros [?|?]. }
  split; [done|]. split.
  - by intros c [= <-].
  - intros Hnodup. unfold Crud.getCategories. simpl.
    rewrite fmap_app. apply NoDup_app. split; [done|]. split.
    + intros x Hx ->%list_elem_of_singleton. done.
    + apply NoDup_singleton.
Qed.

(** X11.  [deleteCategory] fails, and leaves the store as it is, when no
    category has the id.  Otherwise it removes every category with that
    id and, with it, every word of that category: afterwards no word
    refers to the id, the other words are kept in their order, and the
    study log and the settings are as before. *)
Theorem deleteCategory_cascades (id : string) (s : Store.t) :
  let r := Crud.deleteCategory id s in
  (Crud.getCategoryById id s = None →
   r = (Crud.Failed "카테고리를 찾을 수 없습니다.", s))
  ∧ (is_Some (Crud.getCategoryById id s) →
     r.1 = Crud.Ok ()
     ∧ Crud.getCategoryById id r.2 = None
     ∧ Crud.getWords r.2
       = filter (λ w, Word.categoryId w ≠ id) (Crud.getWords s)
     ∧ (∀ w, w ∈ Crud.getWords r.2 → Word.categoryId w ≠ id)
     ∧ Crud.getCategories r.2
       = filter (λ c, Category.id c ≠ id) (Crud.getCategories s)
     ∧ Store.getStudyLog r.2 = Store.getStudyLog s
     ∧ Store.getSettings r.2 = Store.getSettings s).
Proof.
  intros r. unfold r, Crud.deleteCategory, Crud.getCategoryById.
  destruct (list_find _ (Crud.getCategories s)) as [[idx c]|] eqn:Hfind; simpl.
  - split; [done|]. intros _. split; [done|]. split; [|split; [done|split]].
    + apply fmap_None, list_find_None, Forall_forall.
      unfold Crud.getCategories. simpl.
      by intros c' [? _]%list_elem_of_filter.
    + by intros w [? _]%list_elem_of_filter.
    + done.
  - split; [done|]. by intros [? ?].
Qed.

Lemma deleteCategory_cascades_witness :
  let s := Store.mk (sampleStorage 3 [sampleWord "a" 0 "2024-03-01"])
             [Category.mk "cat-001" "식당" true "2024-03-01"] in
  Crud.getWords (Crud.deleteCategory "cat-001" s).2 = [].
Proof.
  intros s.
  destruct (deleteCategory_cascades "cat-001" s) as [_ Hfound].
  destruct Hfound as (_ & _ & Hwords & _); [by eexists|].
  exact Hwords.
Defined.



(** X13.  [addWord] succeeds exactly when the trimmed Japanese and Korean
    texts are not empty and the category id is not empty and is the id of a
    category;
    otherwise it returns an error and leaves the store as it is.  The word it
    appends has both counters at 0, so it is a new word for the daily
    selection, and it is the last word of the store; the words that were
    there and the categories are untouched. *)
Theorem addWord_validates trim newId today input (s : Store.t) :
  let r := Crud.addWord trim newId today input s in
  let valid :=
    trim (Crud.newJapanese input) ≠ ""
    ∧ trim (Crud.newKorean input) ≠ ""
    ∧ Crud.newCategoryId input ≠ ""
    ∧ is_Some (Crud.getCategoryById (Crud.newCategoryId input) s) in
  ((∃ w, r.1 = Crud.Ok w) ↔ valid)
  ∧ (∀ e, r.1 = Crud.Failed e → r.2 = s)
  ∧ (∀ w, r.1 = Crud.Ok w →
       Crud.getWords r.2 = Crud.getWords s ++ [w]
       ∧ Word.id w = newId
       ∧ Word.categoryId w = Crud.newCategoryId input
       ∧ Word.wrongCount w = 0 ∧ Word.correctStreak w = 0
       ∧ isNew w
       ∧ Word.createdAt w = today
       ∧ Crud.getCategories r.2 = Crud.getCategories s
       ∧ Store.getStudyLog r.2 = Store.getStudyLog s).
Proof.
  intros r valid. unfold r, valid, Crud.addWord.
  case_decide as Hj; simpl.
  { split; [split; [by intros [? ?]|by intros [? _]]|]. by split. }
  case_decide as Hk; simpl.
  { split; [split; [by intros [? ?]|by intros (_ & ? & _)]|]. by split. }
  case_decide as Hc; simpl.
  { split; [split; [by intros [? ?]|by intros (_ & _ & ? & _)]|]. by split. }
  destruct (Crud.getCategoryById _ s) as [c|] eqn:Hcat; simpl.
  - split; [split; eauto|]. split; [done|].
    intros w [= <-]. by repeat split.
  - split; [split; [by intros [? ?]|by intros (_ & _ & _ & [? ?])]|].
    by split.
Qed.

(** X14.  [updateWord] fails, and leaves the store as it is, when no word
    has the id.  Otherwise it rewrites the first word with that id: each of
    the four fields [japanese], [furigana], [korean] and [categoryId] that
    is given replaces the old one and each that is left out is kept, and the
    id, both counters and the creation date are kept, so editing a word does
    not reset what was learnt; every other word is untouched. *)
Theorem updateWord_keeps_counters (id : string) fields (s : Store.t) :
  let r := Crud.updateWord id fields s in
  (Crud.getWordById id s = None →
   r = (Crud.Failed "단어를 찾을 수 없습니다.", s))
  ∧ (∀ idx w0,
       list_find (λ w, Word.id w = id) (Crud.getWords s) = Some (idx, w0) →
       ∃ w1, r.1 = Crud.Ok w1
             ∧ Crud.getWords r.2 !! idx = Some w1
             ∧ Crud.getWordById id r.2 = Some w1
             ∧ Word.id w1 = Word.id w0
             ∧ Word.wrongCount w1 = Word.wrongCount w0
             ∧ Word.correctStreak w1 = Word.correctStreak w0
             ∧ Word.createdAt w1 = Word.createdAt w0
             ∧ Word.japanese w1
               = default (Word.japanese w0) (Crud.fieldJapanese fields)
             ∧ Word.furigana w1
               = default (Word.furigana w0) (Crud.fieldFurigana fields)
             ∧ Word.korean w1
               = default (Word.korean w0) (Crud.fieldKorean fields)
             ∧ Word.categoryId w1
               = default (Word.categoryId w0) (Crud.fieldCategoryId fields)
             ∧ length (Crud.getWords r.2) = length (Crud.getWords s)
             ∧ (∀ j, j ≠ idx →
                  Crud.getWords r.2 !! j = Crud.getWords s !! j)
             ∧ Crud.getCategories r.2 = Crud.getCategories s).
Proof.
  intros r. unfold r, Crud.updateWord, Crud.getWordById. split.
  - intros Hnone%fmap_None. by rewrite Hnone.
  - intros idx w0 Hfind. rewrite Hfind. simpl. eexists. split; [done|].
    apply list_find_Some in Hfind as (Hw0 & Hid & Hfirst).
    pose proof (lookup_lt_Some _ _ _ Hw0) as Hlt.
    unfold Crud.getWords, Store.getWords, Storage.getWords in *. simpl.
    split; [by apply list_lookup_insert_eq|]. split.
    { apply fmap_Some. eexists (idx, _). split; [|done].
      apply list_find_Some. split; [by apply list_lookup_insert_eq|].
      split; [done|]. intros j y Hj Hjlt.
      rewrite list_lookup_insert_ne in Hj by lia. by eapply Hfirst. }
    do 8 (split; [done|]). split; [by rewrite length_insert|].
    split; [|done]. intros j Hj. by rewrite list_lookup_insert_ne.
Qed.

Lemma list_find_snd_filter {A} (P Q : A → Prop)
    `{!∀ x, Decision (P x)} `{!∀ x, Decision (Q x)} (l : list A) :
  (∀ x, P x → Q x) →
  snd <$> list_find P (filter Q l) = snd <$> list_find P l.
Proof.
  intros HPQ. induction l as [|x l IH]; [done|].
  rewrite filter_cons. destruct (decide (Q x)) as [HQ|HQ]; csimpl.
  - case_decide; [done|].
    destruct (list_find P (filter Q l)) as [[??]|],
      (list_find P l) as [[??]|]; simplify_eq/=; done.
  - rewrite decide_False by (intros HP; by apply HQ, HPQ).
    rewrite IH. by destruct (list_find P l) as [[??]|].
Qed.

(** X15.  [deleteWord] fails, and leaves the store as it is, when no word
    has the id.  Otherwise no word with that id is left, the other words
    are kept in their order, and the categories, the study log and the
    settings are as before. *)
Theorem deleteWord_removes (id : string) (s : Store.t) :
  let r := Crud.deleteWord id s in
  (Crud.getWordById id s = None →
   r = (Crud.Failed "단어를 찾을 수 없습니다.", s))
  ∧ (is_Some (Crud.getWordById id s) →
     r.1 = Crud.Ok ()
     ∧ Crud.getWordById id r.2 = None
     ∧ Crud.getWords r.2 = filter (λ w, Word.id w ≠ id) (Crud.getWords s)
     ∧ (∀ id', id' ≠ id →
          Crud.getWordById id' r.2 = Crud.getWordById id' s)
     ∧ Crud.getCategories r.2 = Crud.getCategories s
     ∧ Store.getStudyLog r.2 = Store.getStudyLog s
     ∧ Store.getSettings r.2 = Store.getSettings s).
Proof.
  intros r. unfold r, Crud.deleteWord, Crud.getWordById. split.
  - intros Hnone%fmap_None. by rewrite Hnone.
  - intros [w ([idx w'] & Hfind & _)%fmap_Some]. rewrite Hfind. simpl.
    unfold Crud.getWords, Store.getWords, Storage.getWords. simpl.
    split; [done|]. split; [|split; [done|split; [|done]]].
    + apply fmap_None, list_find_None, Forall_forall.
      by intros w'' [? _]%list_elem_of_filter.
    + intros id' Hne. apply list_find_snd_filter. intros x. congruence.
Qed.

Lemma studyLog_recordStudy_lookup today count categoryId st day :
  Storage.studyLog (Data.recordStudy today count categoryId st) !! day
  = if decide (day = today)
    then Some (StudyLogEntry.mk
                 (match Storage.studyLog st !! today with
                  | Some e => StudyLogEntry.count e
                  | None => 0
                  end + count)
                 (match Storage.studyLog st !! today with
                  | Some e => Data.orElse (StudyLogEntry.categoryId e) categoryId
                  | None => Data.orElse categoryId categoryId
                  end))
    else Storage.studyLog st !! day.
Proof.
  unfold Data.recordStudy, Data.getStudyLog, Storage.getStudyLog. simpl.
  case_decide as Hday.
  - subst day. rewrite lookup_insert_eq.
    by destruct (Storage.studyLog st !! today).
  - by rewrite lookup_insert_ne.
Qed.

Lemma startSession_wrong_fails localeCompare rnd now q :
  1 ≤ dailyGoalOf (Quiz.storage q) →
  (Quiz.startSession localeCompare rnd now "wrong" q).1
  = Quiz.Error Quiz.emptyPoolMessage
  ↔ filter isWrong (Data.getWords (Quiz.storage q)) = [].
Proof.
  intros Hd.
  assert (Hlen : length (Quiz.buildDailyWords localeCompare rnd "wrong"
                           (Quiz.storage q))
                 = (Z.to_nat (dailyGoalOf (Quiz.storage q))
                    `min` length (filter isWrong
                                    (Data.getWords (Quiz.storage q))))%nat).
  { rewrite buildDailyWords_wrong, length_slice_nonneg by lia.
    rewrite shuffle_Permutation. unfold Data.getWrongWords.
    by rewrite length_sort. }
  unfold Quiz.startSession. rewrite Hlen.
  rewrite <-(length_zero_iff_nil (filter isWrong _)).
  case_decide; simpl; split; try done; lia.
Qed.

(** X16.  A session completed on the day [today] adds its number of cards
    to the count that [getTodayStudyCount] reports for that day, and
    leaves the entry of every other day as it was. *)
Theorem today_count_grows_by_session localeCompare rnd now categoryId
    q0 s q answers a categories :
  Quiz.startSession localeCompare rnd now categoryId q0 = (Quiz.Ok s, q) →
  answers !! (length (Quiz.Session.words s) - 1)%nat = Some a →
  let n := length (Quiz.Session.words s) in
  let before := Store.mk (Quiz.storage q0) categories in
  let after := Store.mk (Quiz.storage (answerAll answers q)) categories in
  Crud.getTodayStudyCount a.2 after
  = Crud.getTodayStudyCount a.2 before + Z.of_nat n
  ∧ ∀ day, day ≠ a.2 →
      Crud.getStudyLog after !! day = Crud.getStudyLog before !! day.
Proof.
  intros Hstart Ha n before after.
  pose proof (startSession_Ok _ _ _ _ _ _ _ Hstart) as (Hs & Hq & Hne).
  assert (Hn : (0 < n)%nat).
  { unfold n. destruct (Quiz.Session.words s); [done|simpl; lia]. }
  assert (Hfresh : answered s 0 q).
  { exists s. rewrite Hq. simpl. by rewrite Hs. }
  destruct (answerAll_studyLog s 0 q answers Hfresh Hn) as [_ Hafter].
  rewrite Nat.sub_0_r in Hafter. destruct (Hafter a Ha) as [_ Hlog].
  assert (Hst : Quiz.storage q = Quiz.storage q0) by by rewrite Hq.
  rewrite Hst in Hlog.
  unfold Crud.getTodayStudyCount, Crud.getStudyLog, Store.getStudyLog,
    Storage.getStudyLog, after, before. simpl.
  rewrite Hlog. split.
  - rewrite studyLog_recordStudy_lookup, decide_True by done. simpl.
    fold n. by destruct (Storage.studyLog (Quiz.storage q0) !! a.2).
  - intros day Hday.
    by rewrite studyLog_recordStudy_lookup, decide_False.
Qed.

Lemma today_count_grows_by_session_witness :
  let q0 := Quiz.mk (sampleStorage 2 [sampleWord "a" 0 "2024-03-01";
                                       sampleWord "b" 0 "2024-03-02"]) None in
  let s := Quiz.Session.mk "all"
             (Quiz.buildDailyWords codeUnitCompare zeroDraws "all"
                (Quiz.storage q0)) 0 [] false "2024-03-05T09:00:00.000Z" in
  let q := Quiz.mk (Quiz.storage q0) (Some s) in
  let answers := [(true, "2024-03-05"); (false, "2024-03-05")] in
  Crud.getTodayStudyCount "2024-03-05"
    (Store.mk (Quiz.storage (answerAll answers q)) [])
  = Crud.getTodayStudyCount "2024-03-05" (Store.mk (Quiz.storage q0) []) + 2.
Proof.
  intros q0 s q answers.
  destruct (today_count_grows_by_session codeUnitCompare zeroDraws
              "2024-03-05T09:00:00.000Z" "all" q0 s q answers
              (false, "2024-03-05") []) as [Hcount _].
  - reflexivity.
  - reflexivity.
  - exact Hcount.
Defined.

(** X17.  The number of wrong words that [getStats] reports is the number
    of words that [getWrongWords] lists, and is at most the number of
    words; with a daily goal of at least 1 it is 0 exactly when a session
    on the scope ['wrong'] cannot be started. *)
Theorem stats_count_the_wrong_pool localeCompare rnd now today
    (s : Store.t) session :
  1 ≤ dailyGoalOf (Store.storage s) →
  let stats := Crud.getStats today s in
  Crud.wrongWords stats = length (Data.getWrongWords (Store.storage s))
  ∧ (Crud.wrongWords stats ≤ Crud.totalWords stats)%nat
  ∧ (Crud.wrongWords stats = 0%nat
     ↔ (Quiz.startSession localeCompare rnd now "wrong"
          (Quiz.mk (Store.storage s) session)).1
       = Quiz.Error Quiz.emptyPoolMessage).
Proof.
  intros Hd stats.
  assert (Hcount : Crud.wrongWords stats
                   = length (filter isWrong (Data.getWords (Store.storage s)))).
  { unfold stats, Crud.getStats, Crud.getWords, Store.getWords. simpl.
    f_equal. apply list_filter_iff. intros w. unfold isWrong. lia. }
  split; [|split].
  - rewrite Hcount. unfold Data.getWrongWords. by rewrite length_sort.
  - rewrite Hcount. apply length_filter.
  - rewrite startSession_wrong_fails by done.
    by rewrite Hcount, length_zero_iff_nil.
Qed.

Lemma stats_count_the_wrong_pool_witness :
  let s := Store.mk (sampleStorage 2 [sampleWord "a" 2 "2024-03-01";
                                       sampleWord "b" 0 "2024-03-02"]) [] in
  Crud.wrongWords (Crud.getStats "2024-03-05" s) = 1%nat.
Proof.
  intros s.
  destruct (stats_count_the_wrong_pool codeUnitCompare zeroDraws "now"
              "2024-03-05" s None) as [Hcount _].
  - vm_compute. discriminate.
  - rewrite Hcount. reflexivity.
Defined.

(** * Further properties of storage.js *)

(** X18.  Restoring a backup gives back what was exported: whatever the
    store holds when [importAll] reads an exported backup, afterwards the
    words, the categories, the study log and the effective settings are
    those of the store that was exported.  A key that the data lacks
    leaves its collection as it is, and data that is no object is refused
    without a change. *)
Theorem import_restores_export now (s other : Store.t) :
  let r := Store.importAll (Some (Backup.readBack (Store.exportAll now s)))
             other in
  r.1 = true
  ∧ Store.getWords r.2 = Store.getWords s
  ∧ Store.getCategories r.2 = Store.getCategories s
  ∧ Store.getStudyLog r.2 = Store.getStudyLog s
  ∧ Store.getSettings r.2 = Store.getSettings s
  ∧ Store.importAll None other = (false, other)
  ∧ ∀ d,
      let r' := Store.importAll (Some d) other in
      (Backup.dataWords d = None → Store.getWords r'.2 = Store.getWords other)
      ∧ (Backup.dataCategories d = None →
         Store.getCategories r'.2 = Store.getCategories other)
      ∧ (Backup.dataStudyLog d = None →
         Store.getStudyLog r'.2 = Store.getStudyLog other)
      ∧ (Backup.dataSettings d = None →
         Store.getSettings r'.2 = Store.getSettings other).
Proof.
  intros r. do 6 (split; [done|]).
  intros [[ws|] [cs|] [log|] [settings|]] r'; simpl; repeat split; done.
Qed.

(** X19.  [initDefaultCategories] does nothing when the store has a
    category.  On a store without categories it creates the five default
    categories, in the order of [DEFAULT_CATEGORIES], each marked as a
    default, and touches nothing else.  So running it again, with whatever
    ids, changes nothing. *)
Theorem initDefaultCategories_once fresh fresh' (s : Store.t) :
  let s' := Crud.initDefaultCategories fresh s in
  (Crud.getCategories s ≠ [] → s' = s)
  ∧ (Crud.getCategories s = [] →
     Category.name <$> Crud.getCategories s' = Crud.DEFAULT_CATEGORIES
     ∧ Forall (λ c, Category.isDefault c = true) (Crud.getCategories s')
     ∧ Category.id <$> Crud.getCategories s'
       = (λ k, (fresh k).1) <$> seq 0 5)
  ∧ Store.storage s' = Store.storage s
  ∧ Crud.initDefaultCategories fresh' s' = s'.
Proof.
  intros s'. unfold s', Crud.initDefaultCategories, Crud.getCategories.
  destruct (Store.getCategories s) as [|c cs] eqn:Hcs; simpl.
  - split; [done|]. split; [intros _|split; [done|]].
    + split; [done|]. split; [|done]. repeat constructor.
    + done.
  - split; [done|]. split; [done|]. split; [done|].
    rewrite Hcs. simpl. done.
Qed.

(** * What every operation keeps *)

Lemma getCategoryById_is_Some (id : string) (s : Store.t) :
  is_Some (Crud.getCategoryById id s)
  ↔ id ∈ Category.id <$> Store.getCategories s.
Proof.
  unfold Crud.getCategoryById, Crud.getCategories.
  rewrite fmap_is_Some, list_elem_of_fmap. split.
  - intros [[i c] (Hc & Hid & _)%list_find_Some].
    exists c. split; [done|]. by eapply list_elem_of_lookup_2.
  - intros (c & -> & Hc). by eapply list_find_elem_of.
Qed.

Lemma afterCorrect_non_negative g w :
  0 ≤ Word.wrongCount w ∧ 0 ≤ Word.correctStreak w →
  0 ≤ Word.wrongCount (afterCorrect g w)
  ∧ 0 ≤ Word.correctStreak (afterCorrect g w).
Proof. unfold afterCorrect. case_decide; simpl; lia. Qed.

Lemma markCorrect_wordsChange id (s : Store.t) :
  wordsChange (MarkCorrect id) s (Store.getWords s)
    (Storage.words (Data.markCorrect id (Store.storage s))).
Proof.
  unfold Data.markCorrect.
  destruct (Data.findIndex id (Data.getWords (Store.storage s)))
    as [[idx w0]|] eqn:Hfind; [|constructor].
  apply findIndex_Some in Hfind as [Hidx _]. simpl.
  eapply words_rewrite; [exact Hidx|].
  split; [symmetry; apply (afterCorrect_sameCard _ w0)|].
  split; [apply afterCorrect_non_negative|].
  left. symmetry. apply (afterCorrect_sameCard _ w0).
Qed.

Lemma markWrong_wordsChange id (s : Store.t) :
  wordsChange (MarkWrong id) s (Store.getWords s)
    (Storage.words (Data.markWrong id (Store.storage s))).
Proof.
  unfold Data.markWrong.
  destruct (Data.findIndex id (Data.getWords (Store.storage s)))
    as [[idx w0]|] eqn:Hfind; [|constructor].
  apply findIndex_Some in Hfind as [Hidx _]. simpl.
  eapply words_rewrite; [exact Hidx|].
  split; [done|]. split; [simpl; lia|by left].
Qed.

Lemma run_wordsChange trim c (s : Store.t) :
  wordsChange c s (Store.getWords s) (Store.getWords (run trim c s)).
Proof.
  destruct c; simpl.
  - unfold Crud.addCategory. repeat case_decide; constructor.
  - unfold Crud.deleteCategory. destruct (list_find _ _); simpl;
      [apply words_filter; apply _|constructor].
  - unfold Crud.renameCategory. case_decide; [constructor|].
    destruct (list_find _ _) as [[??]|]; constructor.
  - unfold Crud.addWord. repeat case_decide; try constructor.
    destruct (Crud.getCategoryById _ _) eqn:Hcat; simpl; [|constructor].
    apply words_append. eexists _, _, _. split; [done|]. simpl.
    by rewrite Hcat.
  - unfold Crud.updateWord.
    destruct (list_find _ _) as [[idx w0]|] eqn:Hfind; [|constructor].
    apply list_find_Some in Hfind as (Hidx & _). simpl.
    eapply words_rewrite; [exact Hidx|]. split; [done|]. split; [done|].
    simpl. destruct (Crud.fieldCategoryId fields) eqn:Hf; simpl; eauto.
  - unfold Crud.deleteWord. destruct (list_find _ _); simpl;
      [apply words_filter; apply _|constructor].
  - apply markCorrect_wordsChange.
  - apply markWrong_wordsChange.
  - constructor.
Qed.

Lemma run_keeps_countersNonNegative trim c (s : Store.t) :
  countersNonNegative s → countersNonNegative (run trim c s).
Proof.
  unfold countersNonNegative. intros Hs.
  destruct (run_wordsChange trim c s)
    as [|P ?|w (? & ? & ? & _ & _ & Hwc & Hcs & _)|idx w0 w1 Hidx (_ & Hrw & _)].
  - done.
  - rewrite Forall_forall in Hs. apply Forall_forall.
    intros w [_ Hw]%list_elem_of_filter. by apply Hs.
  - apply Forall_app. split; [done|]. constructor; [lia|done].
  - apply Forall_insert; [done|]. apply Hrw.
    apply (Forall_lookup_1 _ _ _ _ Hs Hidx).
Qed.

(** X20.  No operation of [data.js] makes a counter negative: if no word
    has a negative [wrongCount] or [correctStreak], none has after any
    sequence of additions, edits, deletions, answers and study records. *)
Theorem counters_stay_non_negative trim cs (s : Store.t) :
  countersNonNegative s → countersNonNegative (runAll trim cs s).
Proof.
  revert s. induction cs as [|c cs IH]; intros s Hs; [done|].
  apply IH. by apply run_keeps_countersNonNegative.
Qed.

Lemma counters_stay_non_negative_witness :
  countersNonNegative
    (runAll (λ x, x)
       [MarkWrong "a"; MarkCorrect "a"; DeleteWord "b"]
       (Store.mk (sampleStorage 3 [sampleWord "a" 0 "2024-03-01";
                                   sampleWord "b" 2 "2024-03-02"]) [])).
Proof.
  apply (counters_stay_non_negative (λ x, x)).
  repeat constructor; vm_compute; discriminate.
Defined.

(** X21.  Word ids stay unique: if no two words have the same id and
    [generateId] never returns the id of a word of the store, no two words
    have the same id after any sequence of operations. *)
Theorem word_ids_stay_unique trim cs (s : Store.t) :
  uniqueWordIds s → idsFresh trim cs s → uniqueWordIds (runAll trim cs s).
Proof.
  revert s. induction cs as [|c cs IH]; intros s Hs Hfresh; [done|].
  destruct Hfresh as [Hc Hrest]. apply IH; [|done].
  unfold uniqueWordIds in *.
  destruct (run_wordsChange trim c s)
    as [|P ?|w (newId & ? & ? & -> & Hid & _)|idx w0 w1 Hidx (Hid & _)].
  - done.
  - eapply sublist_NoDup; [exact Hs|apply fmap_sublist, sublist_filter].
  - rewrite fmap_app. apply NoDup_app. split; [done|]. split.
    + intros i Hi ->%list_elem_of_singleton. simpl in Hid. by subst.
    + apply NoDup_singleton.
  - rewrite list_fmap_insert, Hid, list_insert_id; [done|].
    by rewrite list_lookup_fmap, Hidx.
Qed.

Lemma word_ids_stay_unique_witness :
  uniqueWordIds
    (runAll (λ x, x)
       [AddCategory "cat-001" "2024-03-01" "식당";
        AddWord "c" "2024-03-03"
          (Crud.mkNewWord "飲む" (Some "のむ") "마시다" "cat-001");
        MarkWrong "c"]
       (Store.mk (sampleStorage 3 [sampleWord "a" 0 "2024-03-01";
                                   sampleWord "b" 2 "2024-03-02"]) [])).
Proof.
  apply (word_ids_stay_unique (λ x, x)).
  - compute_done.
  - repeat split. compute_done.
Defined.

Lemma run_categories_kept trim c (s : Store.t) i :
  (∀ id, c ≠ DeleteCategory id) →
  i ∈ Category.id <$> Store.getCategories s →
  i ∈ Category.id <$> Store.getCategories (run trim c s).
Proof.
  intros Hc Hi. destruct c; simpl; try done.
  - unfold Crud.addCategory. repeat case_decide; simpl; try done.
    rewrite fmap_app. apply elem_of_app. by left.
  - by destruct (Hc id).
  - unfold Crud.renameCategory. case_decide; [done|].
    destruct (list_find _ _) as [[idx c0]|] eqn:Hfind; [|done]. simpl.
    apply list_find_Some in Hfind as (Hc0 & _).
    rewrite list_fmap_insert. simpl. rewrite list_insert_id; [done|].
    by rewrite list_lookup_fmap, Hc0.
  - unfold Crud.addWord. repeat case_decide; try done.
    by destruct (Crud.getCategoryById _ _).
  - unfold Crud.updateWord. by destruct (list_find _ _) as [[??]|].
  - unfold Crud.deleteWord. by destruct (list_find _ _).
Qed.

Lemma run_keeps_categoriesResolve trim c (s : Store.t) :
  categoriesResolve s →
  updatesResolve trim [c] s →
  categoriesResolve (run trim c s).
Proof.
  unfold categoriesResolve. intros Hs [Hupd _].
  setoid_rewrite getCategoryById_is_Some.
  setoid_rewrite getCategoryById_is_Some in Hs.
  rewrite Forall_forall in Hs.
  assert ((∃ id, c = DeleteCategory id) ∨ (∀ id, c ≠ DeleteCategory id))
    as [[id ->]|Hnd] by (destruct c; eauto; by right).
  - simpl. unfold Crud.deleteCategory.
    destruct (list_find _ _); simpl; [|by apply Forall_forall].
    apply Forall_forall. intros w [Hne Hw]%list_elem_of_filter.
    apply list_elem_of_fmap. apply Hs, list_elem_of_fmap in Hw as (c & Hid & Hc).
    exists c. split; [done|]. apply list_elem_of_filter. split; [|done].
    congruence.
  - assert (Hkept : ∀ i, i ∈ Category.id <$> Store.getCategories s →
                         i ∈ Category.id <$> Store.getCategories (run trim c s)).
    { intros i. by apply run_categories_kept. }
    destruct (run_wordsChange trim c s)
      as [|P ?|w (? & ? & ? & _ & _ & _ & _ & Hcat)
          |idx w0 w1 Hidx (_ & _ & Hcat)].
    + apply Forall_forall. intros w Hw. by apply Hkept, Hs.
    + apply Forall_forall. intros w [_ Hw]%list_elem_of_filter.
      by apply Hkept, Hs.
    + apply Forall_app. split.
      * apply Forall_forall. intros w' Hw'. by apply Hkept, Hs.
      * constructor; [|done]. by apply Hkept, getCategoryById_is_Some.
    + apply Forall_insert.
      * apply Forall_forall. intros w Hw. by apply Hkept, Hs.
      * apply Hkept. destruct Hcat as [->|(id & fields & -> & Hf)].
        -- apply Hs. by eapply list_elem_of_lookup_2.
        -- simpl in Hupd. rewrite Hf in Hupd.
           by apply getCategoryById_is_Some.
Qed.

(** X22.  Every word keeps a category: if every word belongs to a category
    of the store, it still does after any sequence of operations in which
    [updateWord] is only given categories of the store.  In particular
    [deleteCategory] leaves no word behind, and [addWord] refuses a
    category that does not exist. *)
Theorem categories_stay_resolved trim cs (s : Store.t) :
  categoriesResolve s →
  updatesResolve trim cs s →
  categoriesResolve (runAll trim cs s).
Proof.
  revert s. induction cs as [|c cs IH]; intros s Hs Hupd; [done|].
  destruct Hupd as [Hc Hrest]. apply IH; [|done].
  by apply run_keeps_categoriesResolve.
Qed.

Lemma categories_stay_resolved_witness :
  categoriesResolve
    (runAll (λ x, x)
       [AddCategory "cat-002" "2024-03-01" "교통";
        UpdateWord "a" (Crud.mkFields None None None (Some "cat-002"));
        DeleteCategory "cat-001"]
       (Store.mk (sampleStorage 3 [sampleWord "a" 0 "2024-03-01";
                                   sampleWord "b" 2 "2024-03-02"])
          [Category.mk "cat-001" "식당" true "2024-03-01"])).
Proof.
  apply (categories_stay_resolved (λ x, x)).
  - repeat constructor; by eexists.
  - repeat split. by eexists.
Defined.

(** * The bulk import *)

Lemma runAll_app trim cs1 cs2 (s : Store.t) :
  runAll trim (cs1 ++ cs2) s = runAll trim cs2 (runAll trim cs1 s).
Proof. unfold runAll. by rewrite foldl_app. Qed.

Lemma bulkProgress_refl trim fresh acc : bulkProgress trim fresh 0 acc acc.
Proof.
  destruct acc as [[res s] k]. split; [simpl; lia|].
  split; [by exists []|].
  split; [exists []; by rewrite app_nil_r, Nat.add_0_r|].
  split; [exists []; by rewrite app_nil_r|]. done.
Qed.

Lemma bulkProgress_trans trim fresh n m acc1 acc2 acc3 :
  bulkProgress trim fresh n acc1 acc2 →
  bulkProgress trim fresh m acc2 acc3 →
  bulkProgress trim fresh (n + m) acc1 acc3.
Proof.
  destruct acc1 as [[r1 s1] k1], acc2 as [[r2 s2] k2], acc3 as [[r3 s3] k3].
  intros (Hn & (c1 & -> & Hc1) & (w1 & Hw1 & Ha1 & Hz1)
          & (g1 & Hg1 & Hd1) & Hl1 & Ht1)
         (Hm & (c2 & -> & Hc2) & (w2 & Hw2 & Ha2 & Hz2)
          & (g2 & Hg2 & Hd2) & Hl2 & Ht2).
  split; [lia|]. split.
  { exists (c1 ++ c2). split; [by rewrite runAll_app|by apply Forall_app]. }
  split.
  { exists (w1 ++ w2). rewrite Hw2, Hw1, <-app_assoc, length_app.
    split; [done|]. split; [lia|by apply Forall_app]. }
  split.
  { exists (g1 ++ g2). rewrite Hg2, Hg1, <-app_assoc.
    split; [done|by apply Forall_app]. }
  split; congruence.
Qed.

Lemma addWord_cases trim newId today input (s : Store.t) :
  (∃ e, Crud.addWord trim newId today input s = (Crud.Failed e, s))
  ∨ (∃ w, Crud.addWord trim newId today input s
          = (Crud.Ok w, Store.setWords (Store.getWords s ++ [w]) s)
          ∧ Word.wrongCount w = 0 ∧ Word.correctStreak w = 0).
Proof.
  unfold Crud.addWord. repeat case_decide; eauto.
  destruct (Crud.getCategoryById _ _); eauto.
Qed.

Lemma addCategory_cases trim newId today name (s : Store.t) :
  (∃ e, Crud.addCategory trim newId today name s = (Crud.Failed e, s))
  ∨ (∃ c, Crud.addCategory trim newId today name s
          = (Crud.Ok c, Store.setCategories (Store.getCategories s ++ [c]) s)
          ∧ Category.isDefault c = false).
Proof. unfold Crud.addCategory. repeat case_decide; eauto. Qed.

Lemma bulkAddWord_progress trim fresh lineNum row categoryId res s k :
  bulkProgress trim fresh 1 (res, s, k)
    (Crud.bulkAddWord trim fresh lineNum row categoryId (res, s, k)).
Proof.
  unfold Crud.bulkAddWord.
  set (input := Crud.mkNewWord _ _ _ _).
  pose proof (addWord_cases trim (fresh k).1 (fresh k).2 input s)
    as [[e He]|(w & Hw & Hwc & Hcs)].
  - rewrite He. split; [simpl; rewrite length_app; simpl; lia|].
    split; [by exists []|].
    split; [exists []; by rewrite app_nil_r, Nat.add_0_r|].
    split; [exists []; by rewrite app_nil_r|]. done.
  - rewrite Hw. split; [simpl; lia|]. split.
    { exists [AddWord (fresh k).1 (fresh k).2 input]. split.
      - unfold runAll. simpl. by rewrite Hw.
      - constructor; [|done]. exists k. right. by exists input. }
    split; [exists [w]; simpl; split; [done|]; split; [lia|by constructor]|].
    split; [exists []; by rewrite app_nil_r|]. done.
Qed.

Lemma bulkRow_progress trim fresh i row acc :
  bulkProgress trim fresh 1 acc (Crud.bulkRow trim fresh i row acc).
Proof.
  destruct acc as [[res s] k]. unfold Crud.bulkRow.
  case_decide as Hname.
  { split; [simpl; rewrite length_app; simpl; lia|].
    split; [by exists []|].
    split; [exists []; by rewrite app_nil_r, Nat.add_0_r|].
    split; [exists []; by rewrite app_nil_r|]. done. }
  destruct (list_find _ _) as [[j existing]|].
  { apply bulkAddWord_progress. }
  set (name := trim (default "" (Crud.rowCategoryName row))).
  pose proof (addCategory_cases trim (fresh k).1 (fresh k).2 name s)
    as [[e He]|(c & Hc & Hdef)].
  - rewrite He. split; [simpl; rewrite length_app; simpl; lia|].
    split; [by exists []|].
    split; [exists []; by rewrite app_nil_r, Nat.add_0_r|].
    split; [exists []; by rewrite app_nil_r|]. done.
  - rewrite Hc.
    apply (bulkProgress_trans trim fresh 0 1 _
             (res, Store.setCategories (Store.getCategories s ++ [c]) s, S k));
      [|apply bulkAddWord_progress].
    split; [simpl; lia|]. split.
    { exists [AddCategory (fresh k).1 (fresh k).2 name]. split.
      - unfold runAll. simpl. by rewrite Hc.
      - constructor; [|done]. exists k. left. by exists name. }
    split; [exists []; by rewrite app_nil_r, Nat.add_0_r|].
    split; [exists [c]; split; [done|by constructor]|]. done.
Qed.

Lemma bulkFrom_progress trim fresh i rows acc :
  bulkProgress trim fresh (length rows) acc (Crud.bulkFrom trim fresh i rows acc).
Proof.
  revert i acc. induction rows as [|row rows IH]; intros i acc; simpl.
  - apply bulkProgress_refl.
  - apply (bulkProgress_trans trim fresh 1 (length rows) _
             (Crud.bulkRow trim fresh i row acc));
      [apply bulkRow_progress|apply IH].
Qed.

(** X23.  [bulkAddWords] accounts for every row: a row either adds a word
    or adds one error, so [added] plus the number of errors is the number
    of rows.  The words that were in the store are kept, in their order,
    and exactly [added] words follow them, each with both counters at 0;
    the categories that were there are kept and the ones created for the
    import are not default ones; the study log and the settings are
    untouched. *)
Theorem bulkAddWords_accounts trim fresh rows (s : Store.t) :
  let r := Crud.bulkAddWords trim fresh rows s in
  (Crud.added r.1 + length (Crud.errors r.1) = length rows)%nat
  ∧ (∃ newWords,
       Store.getWords r.2 = Store.getWords s ++ newWords
       ∧ length newWords = Crud.added r.1
       ∧ Forall (λ w, Word.wrongCount w = 0 ∧ Word.correctStreak w = 0)
           newWords)
  ∧ (∃ newCategories,
       Store.getCategories r.2 = Store.getCategories s ++ newCategories
       ∧ Forall (λ c, Category.isDefault c = false) newCategories)
  ∧ Store.getStudyLog r.2 = Store.getStudyLog s
  ∧ Store.getSettings r.2 = Store.getSettings s.
Proof.
  intros r. unfold r, Crud.bulkAddWords.
  pose proof (bulkFrom_progress trim fresh 0 rows (Crud.mkBulk 0 [], s, 0%nat))
    as Hprogress.
  destruct (Crud.bulkFrom _ _ _ _ _) as [[res' s'] k'].
  destruct Hprogress as (Hn & _ & (nw & Hw & Ha & Hz) & Hcats & Hlog & Hset).
  simpl in *. split; [lia|]. split; [|done].
  exists nw. split; [done|]. split; [lia|done].
Qed.

(** X24.  What [bulkAddWords] does to the store is what a sequence of
    [addCategory] and [addWord] calls does, each with an id and a day
    drawn from the host.  So it keeps what they keep: no counter becomes
    negative, and every word belongs to a category of the store if every
    word did. *)
Theorem bulkAddWords_composes trim fresh rows (s : Store.t) :
  let r := Crud.bulkAddWords trim fresh rows s in
  (∃ cmds, r.2 = runAll trim cmds s ∧ Forall (isCreation fresh) cmds)
  ∧ (countersNonNegative s → countersNonNegative r.2)
  ∧ (categoriesResolve s → categoriesResolve r.2).
Proof.
  intros r. unfold r, Crud.bulkAddWords.
  pose proof (bulkFrom_progress trim fresh 0 rows (Crud.mkBulk 0 [], s, 0%nat))
    as Hprogress.
  destruct (Crud.bulkFrom _ _ _ _ _) as [[res' s'] k'].
  destruct Hprogress as (_ & (cmds & -> & Hcmds) & _). simpl.
  split; [by exists cmds|]. clear r res' k'.
  split.
  - revert s. induction cmds as [|c cmds IH]; intros s Hs; [done|].
    apply Forall_cons in Hcmds as [_ Hcmds].
    apply (IH Hcmds). by apply run_keeps_countersNonNegative.
  - revert s. induction cmds as [|c cmds IH]; intros s Hs; [done|].
    apply Forall_cons in Hcmds as [Hc Hcmds].
    apply (IH Hcmds). apply run_keeps_categoriesResolve; [done|].
    split; [|done]. by destruct Hc as [k [[name ->]|[input ->]]].
Qed.

(** * Writing and reading a line of CSV *)

Lemma string_app_cons (a : ascii) (s t : string) :
  String a s +:+ t = String a (s +:+ t).
Proof. done. Qed.

Lemma string_app_nil_l (s : string) : "" +:+ s = s.
Proof. done. Qed.

Lemma string_app_nil_r (s : string) : s +:+ "" = s.
Proof.
  induction s as [|a s IH]; [done|]. by rewrite string_app_cons, IH.
Qed.

Lemma string_app_assoc (s t u : string) : (s +:+ t) +:+ u = s +:+ (t +:+ u).
Proof.
  induction s as [|a s IH]; [done|]. by rewrite !string_app_cons, IH.
Qed.

Section CSVFacts.
Variable trim : string → string.

(** A stretch of characters without comma and double quote, outside
    quotes, is appended to the current field. *)
Lemma parseFrom_plain (str rest current : string) fields :
  CSV.includes CSV.comma str = false →
  CSV.includes CSV.quote str = false →
  CSV.parseFrom trim (str +:+ rest) false current fields
  = CSV.parseFrom trim rest false (current +:+ str) fields.
Proof.
  revert current. induction str as [|a str IH]; intros current Hc Hq.
  - by rewrite string_app_nil_l, string_app_nil_r.
  - cbn in Hc, Hq. repeat case_decide; try done.
    rewrite string_app_cons. cbn [CSV.parseFrom].
    rewrite decide_False by done.
    rewrite decide_False by (by intros [? _]).
    rewrite IH, string_app_assoc by done. done.
Qed.

(** Inside quotes, the doubled text up to the closing quote is the text. *)
Lemma parseFrom_quoted (str rest current : string) fields :
  (rest = "" ∨ ∃ c r, rest = String c r ∧ c ≠ CSV.quote) →
  CSV.parseFrom trim (CSV.doubleQuotes str +:+ String CSV.quote rest)
    true current fields
  = CSV.parseFrom trim rest false (current +:+ str) fields.
Proof.
  intros Hrest. revert current. induction str as [|a str IH]; intros current.
  - rewrite string_app_nil_r. cbn [CSV.doubleQuotes].
    rewrite string_app_nil_l. cbn [CSV.parseFrom].
    rewrite decide_True by done.
    destruct Hrest as [->|(c & r & -> & Hc)]; [done|].
    by rewrite decide_False.
  - cbn [CSV.doubleQuotes]. case_decide as Ha.
    + subst a. rewrite !string_app_cons. cbn [CSV.parseFrom].
      rewrite !decide_True by done.
      by rewrite IH, string_app_assoc.
    + rewrite string_app_cons. cbn [CSV.parseFrom].
      rewrite decide_False by done.
      rewrite decide_False by (by intros [_ ?]).
      by rewrite IH, string_app_assoc.
Qed.

Lemma parseFrom_escapeField (str rest current : string) fields :
  (rest = "" ∨ ∃ c r, rest = String c r ∧ c ≠ CSV.quote) →
  CSV.parseFrom trim (CSV.escapeField str +:+ rest) false current fields
  = CSV.parseFrom trim rest false (current +:+ str) fields.
Proof.
  intros Hrest. unfold CSV.escapeField.
  destruct (CSV.includes CSV.comma str) eqn:Hc; simpl.
  2: destruct (CSV.includes CSV.quote str) eqn:Hq; simpl.
  3: destruct (CSV.includes CSV.lineFeed str) eqn:Hl; simpl.
  4: by apply parseFrom_plain.
  all: rewrite string_app_assoc; by apply parseFrom_quoted.
Qed.

Lemma parseFrom_toLine (x : string) (xs : list string) fields :
  CSV.parseFrom trim (CSV.toLine (x :: xs)) false "" fields
  = fields ++ (trim <$> x :: xs).
Proof.
  revert x fields. induction xs as [|y ys IH]; intros x fields.
  - change (CSV.toLine [x]) with (CSV.escapeField x).
    rewrite <-(string_app_nil_r (CSV.escapeField x)).
    rewrite parseFrom_escapeField by by left. done.
  - change (CSV.toLine (x :: y :: ys))
      with (CSV.escapeField x
            +:+ String CSV.comma (CSV.toLine (y :: ys))).
    rewrite parseFrom_escapeField by (right; by eexists _, _).
    cbn [CSV.parseFrom]. rewrite decide_False by done.
    rewrite decide_True by done.
    rewrite IH, <-app_assoc. done.
Qed.
End CSVFacts.

(** X25.  Reading a line undoes writing it: for every row with at least
    one field, the fields read from the line written for it are the fields
    of the row, trimmed, whatever commas, double quotes and other
    characters they hold. *)
Theorem parseLine_inverts_toLine trim (row : list string) :
  row ≠ [] →
  CSV.parseLine trim (CSV.toLine row) = trim <$> row.
Proof.
  intros Hrow. destruct row as [|x xs]; [done|].
  unfold CSV.parseLine. by rewrite parseFrom_toLine.
Qed.

Lemma parseLine_inverts_toLine_witness :
  CSV.parseLine (λ x, x)
    (CSV.toLine ["いくらですか"; ""; "네, 알겠습니다"; "쇼핑"])
  = ["いくらですか"; ""; "네, 알겠습니다"; "쇼핑"].
Proof.
  apply (parseLine_inverts_toLine (λ x, x)
           ["いくらですか"; ""; "네, 알겠습니다"; "쇼핑"]).
  discriminate.
Defined.

(** * Writing and reading the text of a CSV file *)

Lemma includes_app c (s t : string) :
  CSV.includes c (s +:+ t) = CSV.includes c s || CSV.includes c t.
Proof.
  induction s as [|a s IH]; [done|].
  rewrite string_app_cons. cbn [CSV.includes]. by case_decide.
Qed.

Lemma includes_lineFeed_doubleQuotes (s : string) :
  CSV.includes CSV.lineFeed (CSV.doubleQuotes s)
  = CSV.includes CSV.lineFeed s.
Proof.
  induction s as [|a s IH]; [done|]. cbn [CSV.doubleQuotes].
  case_decide as Ha; cbn [CSV.includes]; rewrite IH; [|done].
  subst a. by rewrite !decide_False by done.
Qed.

Lemma includes_lineFeed_escapeField (s : string) :
  CSV.includes CSV.lineFeed (CSV.escapeField s)
  = CSV.includes CSV.lineFeed s.
Proof.
  unfold CSV.escapeField.
  destruct (_ || _ || _); [|done].
  cbn [CSV.includes]. rewrite decide_False by done.
  rewrite includes_app, includes_lineFeed_doubleQuotes.
  cbn [CSV.includes]. rewrite decide_False by done. by rewrite orb_false_r.
Qed.

Lemma includes_lineFeed_toLine (row : list string) :
  Forall (λ f, CSV.includes CSV.lineFeed f = false) row →
  CSV.includes CSV.lineFeed (CSV.toLine row) = false.
Proof.
  unfold CSV.toLine.
  induction 1 as [|f row Hf Hrow IH]; [done|].
  destruct row as [|g row].
  - simpl. by rewrite includes_lineFeed_escapeField.
  - cbn [fmap list_fmap String.concat] in *.
    rewrite includes_app, includes_lineFeed_escapeField, Hf.
    rewrite string_app_cons, string_app_nil_l. cbn [CSV.includes orb].
    by rewrite decide_False by done.
Qed.

Lemma splitFrom_cons_other (a : ascii) (rest current : string) :
  a ≠ CSV.lineFeed →
  (∀ b r, rest = String b r →
          ¬ (a = CSVText.carriageReturn ∧ b = CSV.lineFeed)) →
  CSVText.splitFrom (String a rest) current
  = CSVText.splitFrom rest (current +:+ String a "").
Proof.
  intros Ha Hnext. cbn [CSVText.splitFrom]. rewrite decide_False by done.
  destruct rest as [|b r]; [done|]. by rewrite decide_False by eauto.
Qed.

(** A line without line feed, followed by a line break, is one piece. *)
Lemma splitFrom_line (line rest current : string) :
  CSV.includes CSV.lineFeed line = false →
  CSVText.splitFrom (line +:+ CSVText.lineBreak +:+ rest) current
  = (current +:+ line) :: CSVText.splitFrom rest "".
Proof.
  revert current. induction line as [|a line IH]; intros current Hline.
  - rewrite string_app_nil_l, string_app_nil_r. unfold CSVText.lineBreak.
    rewrite !string_app_cons, string_app_nil_l. cbn [CSVText.splitFrom].
    rewrite decide_False by done. by rewrite decide_True by done.
  - cbn [CSV.includes] in Hline. case_decide as Ha; [done|].
    rewrite string_app_cons, splitFrom_cons_other; [|done|].
    + rewrite IH, string_app_assoc by done. done.
    + intros b r Hr [_ ->]. destruct line as [|b line'].
      * rewrite string_app_nil_l in Hr. unfold CSVText.lineBreak in Hr.
        rewrite string_app_cons in Hr. by injection Hr.
      * rewrite string_app_cons in Hr. injection Hr as -> _.
        cbn [CSV.includes] in Hline. by rewrite decide_True in Hline.
Qed.

Lemma splitFrom_last (line current : string) :
  CSV.includes CSV.lineFeed line = false →
  CSVText.splitFrom line current = [current +:+ line].
Proof.
  revert current. induction line as [|a line IH]; intros current Hline.
  - by rewrite string_app_nil_r.
  - cbn [CSV.includes] in Hline. case_decide as Ha; [done|].
    rewrite splitFrom_cons_other; [|done|].
    + rewrite IH, string_app_assoc by done. done.
    + intros b r -> [_ ->]. cbn [CSV.includes] in Hline. by case_decide.
Qed.

Lemma splitLines_concat (line : string) (lines : list string) :
  Forall (λ l, CSV.includes CSV.lineFeed l = false) (line :: lines) →
  CSVText.splitLines (String.concat CSVText.lineBreak (line :: lines))
  = line :: lines.
Proof.
  unfold CSVText.splitLines. revert line.
  induction lines as [|l lines IH]; intros line [Hline Hlines]%Forall_cons.
  - simpl. by rewrite splitFrom_last.
  - change (String.concat CSVText.lineBreak (line :: l :: lines))
      with (line +:+ CSVText.lineBreak
            +:+ String.concat CSVText.lineBreak (l :: lines)).
    rewrite splitFrom_line by done. f_equal. by apply IH.
Qed.

(** X26.  Reading back the text that [wordsToCSV] writes gives the header
    and, for each word in turn, its Japanese text, reading, Korean text
    and the name of its category, each trimmed, provided no field holds a
    line feed (the text is split at line feeds before a line is read) and
    the text neither begins nor ends with white space, so that [trim]
    leaves it as it is. *)
Theorem parseCSVString_inverts_wordsToCSV trim words (s : Store.t) :
  trim (CSVText.wordsToCSV words s) = CSVText.wordsToCSV words s →
  Forall (λ w, Forall (λ f, CSV.includes CSV.lineFeed f = false)
                 (CSVText.rowOf (Crud.getCategories s) w)) words →
  CSVText.parseCSVString trim (CSVText.wordsToCSV words s)
  = (trim <$> CSVText.header)
    :: ((λ w, trim <$> CSVText.rowOf (Crud.getCategories s) w) <$> words).
Proof.
  intros Htrim Hfields. unfold CSVText.parseCSVString. rewrite Htrim.
  unfold CSVText.wordsToCSV. cbn [fmap list_fmap].
  rewrite splitLines_concat.
  - cbn [fmap list_fmap]. f_equal.
    rewrite <-!list_fmap_compose. apply list_fmap_ext.
    intros i w _. simpl. unfold CSV.parseLine, CSVText.rowOf.
    by rewrite parseFrom_toLine.
  - constructor; [by vm_compute|].
    rewrite <-list_fmap_compose. apply Forall_fmap.
    eapply Forall_impl; [exact Hfields|].
    intros w Hw. by apply includes_lineFeed_toLine.
Qed.

Lemma parseCSVString_inverts_wordsToCSV_witness :
  let s := Store.mk (sampleStorage 3 [])
             [Category.mk "cat-001" "식당, 카페" true "2024-03-01"] in
  let words := [sampleWord "a" 0 "2024-03-01"; sampleWord "b" 2 "2024-03-02"] in
  CSVText.parseCSVString (λ x, x) (CSVText.wordsToCSV words s)
  = CSVText.header
    :: [["食べる"; "たべる"; "먹다"; "식당, 카페"];
        ["食べる"; "たべる"; "먹다"; "식당, 카페"]].
Proof.
  intros s words.
  rewrite (parseCSVString_inverts_wordsToCSV (λ x, x) words s).
  - reflexivity.
  - reflexivity.
  - repeat constructor.
Defined.

(** X27.  Without words there is nothing to study: on a store that has no
    word, [startSession] fails for every scope and every setting, and
    leaves the state as it is; the store that [clearAll] leaves is such a
    store. *)
Theorem empty_store_has_nothing_to_study localeCompare rnd now categoryId q :
  Storage.words (Quiz.storage q) = [] →
  Quiz.startSession localeCompare rnd now categoryId q
  = (Quiz.Error Quiz.emptyPoolMessage, q)
  ∧ ∀ s session,
      (Quiz.startSession localeCompare rnd now categoryId
         (Quiz.mk (Store.storage (Store.clearAll s)) session)).1
      = Quiz.Error Quiz.emptyPoolMessage.
Proof.
  assert (Hempty : ∀ st, Storage.words st = [] →
            Quiz.buildDailyWords localeCompare rnd categoryId st = []).
  { intros st Hwords. destruct (decide (categoryId = "wrong")) as [->|Hc].
    - rewrite buildDailyWords_wrong.
      unfold Data.getWrongWords, Data.getWords, Storage.getWords.
      rewrite Hwords. simpl. apply submseteq_nil_r.
      apply sublist_submseteq, slice_sublist.
    - apply submseteq_nil_r. 
      etrans; [by apply buildDailyWords_submseteq|].
      unfold scopeWords, Data.getWordsByCategory, Data.getWords,
        Storage.getWords. rewrite Hwords. by case_decide. }
  intros Hwords. split.
  - unfold Quiz.startSession. by rewrite (Hempty _ Hwords).
  - intros s session. unfold Quiz.startSession. by rewrite Hempty.
Qed.

Lemma empty_store_has_nothing_to_study_witness :
  Quiz.startSession codeUnitCompare zeroDraws "2024-03-05T09:00:00.000Z"
    "all" (Quiz.mk (sampleStorage 10 []) None)
  = (Quiz.Error Quiz.emptyPoolMessage, Quiz.mk (sampleStorage 10 []) None).
Proof.
  destruct (empty_store_has_nothing_to_study codeUnitCompare zeroDraws
              "2024-03-05T09:00:00.000Z" "all"
              (Quiz.mk (sampleStorage 10 []) None)) as [Hfail _].
  - reflexivity.
  - exact Hfail.
Defined.

(** * What a session does to the words *)

Lemma sameCard_refl w : sameCard w w.
Proof. by repeat split. Qed.

Lemma sameCard_trans a b c : sameCard a b → sameCard b c → sameCard a c.
Proof.
  unfold sameCard. intros (?&?&?&?&?&?) (?&?&?&?&?&?).
  repeat split; congruence.
Qed.

Lemma Forall2_sameCard_refl ws : Forall2 sameCard ws ws.
Proof. induction ws; constructor; [apply sameCard_refl|done]. Qed.

Lemma Forall2_sameCard_trans ws1 ws2 ws3 :
  Forall2 sameCard ws1 ws2 → Forall2 sameCard ws2 ws3 →
  Forall2 sameCard ws1 ws3.
Proof.
  intros H12. revert ws3. induction H12; inversion 1; subst; constructor;
    eauto using sameCard_trans.
Qed.

Lemma Forall2_sameCard_insert ws idx w0 w1 :
  ws !! idx = Some w0 → sameCard w0 w1 →
  Forall2 sameCard ws (<[idx:=w1]> ws).
Proof.
  intros Hidx Hsame.
  rewrite <-(list_insert_id ws idx w0) at 1 by done.
  apply Forall2_insert; [apply Forall2_sameCard_refl|done].
Qed.

Lemma movesCounters_refl st : movesCounters st st.
Proof. split; [apply Forall2_sameCard_refl|done]. Qed.

Lemma movesCounters_trans st1 st2 st3 :
  movesCounters st1 st2 → movesCounters st2 st3 → movesCounters st1 st3.
Proof.
  intros (H1 & Hs1 & Hn1) (H2 & Hs2 & Hn2).
  split; [by eapply Forall2_sameCard_trans|]. split; [congruence|auto].
Qed.

Lemma markCorrect_movesCounters id st :
  movesCounters st (Data.markCorrect id st).
Proof.
  unfold Data.markCorrect.
  destruct (Data.findIndex id (Data.getWords st)) as [[idx w0]|] eqn:Hfind;
    [|apply movesCounters_refl].
  apply findIndex_Some in Hfind as [Hidx _].
  split; [|split; [done|]]; simpl.
  - eapply Forall2_sameCard_insert; [done|apply afterCorrect_sameCard].
  - intros Hall. apply Forall_insert; [done|].
    apply afterCorrect_non_negative, (Forall_lookup_1 _ _ _ _ Hall Hidx).
Qed.

Lemma markWrong_movesCounters id st :
  movesCounters st (Data.markWrong id st).
Proof.
  unfold Data.markWrong.
  destruct (Data.findIndex id (Data.getWords st)) as [[idx w0]|] eqn:Hfind;
    [|apply movesCounters_refl].
  apply findIndex_Some in Hfind as [Hidx _].
  split; [|split; [done|]]; simpl.
  - eapply Forall2_sameCard_insert; [done|apply afterWrong_sameCard].
  - intros Hall. apply Forall_insert; [done|].
    pose proof (Forall_lookup_1 _ _ _ _ Hall Hidx). simpl in *. lia.
Qed.

Lemma answer_movesCounters a q :
  movesCounters (Quiz.storage q) (Quiz.storage (answer a q).2).
Proof.
  destruct a as [[] today]; unfold answer, Quiz.answerCorrect,
    Quiz.answerWrong; simpl;
    (destruct (Quiz.session q) as [s|]; [|apply movesCounters_refl]);
    (destruct (Quiz.currentWord q) as [cw|]; [|apply movesCounters_refl]);
    unfold Quiz._next; simpl; case_bool_decide; simpl.
  - apply (movesCounters_trans _ (Data.markCorrect (Word.id cw) (Quiz.storage q)));
      [apply markCorrect_movesCounters|]. split; [apply Forall2_sameCard_refl|done].
  - apply markCorrect_movesCounters.
  - apply (movesCounters_trans _ (Data.markWrong (Word.id cw) (Quiz.storage q)));
      [apply markWrong_movesCounters|]. split; [apply Forall2_sameCard_refl|done].
  - apply markWrong_movesCounters.
Qed.

(** X28.  A session only moves counters: after any sequence of answers
    the store has the same words at the same places, each differing from
    what it was in [wrongCount] and [correctStreak] at most; the settings
    are unchanged; and no counter is negative if none was. *)
Theorem session_only_moves_counters q answers :
  let st := Quiz.storage q in
  let st' := Quiz.storage (answerAll answers q) in
  Forall2 sameCard (Storage.words st) (Storage.words st')
  ∧ Word.id <$> Storage.words st' = Word.id <$> Storage.words st
  ∧ Storage.settings st' = Storage.settings st
  ∧ (Forall (λ w, 0 ≤ Word.wrongCount w ∧ 0 ≤ Word.correctStreak w)
       (Storage.words st) →
     Forall (λ w, 0 ≤ Word.wrongCount w ∧ 0 ≤ Word.correctStreak w)
       (Storage.words st')).
Proof.
  intros st st'.
  assert (Hmoves : movesCounters st st').
  { unfold st, st'. clear. revert q.
    induction answers as [|a answers IH]; intros q;
      [apply movesCounters_refl|].
    unfold answerAll in *. simpl.
    eapply movesCounters_trans; [apply answer_movesCounters|apply IH]. }
  destruct Hmoves as (Hsame & Hset & Hnn).
  split; [done|]. split; [|done].
  clear -Hsame. induction Hsame as [|w w' ws ws' Hw _ IH]; [done|].
  csimpl. f_equal; [by destruct Hw as [-> _]|done].
Qed.
